(** * Dispenser.ino: the control loop of the automatic candy dispenser

    The sketch is embedded as a program of a small monad that threads the
    three globals of the sketch, reads the two hardware inputs of a control
    cycle (the button level and the echo pulse width), records every call
    into the Arduino core as an event, and has no result where C++ leaves
    the behaviour undefined (signed overflow of an [int], a floating value
    that does not fit the [int] it is converted to).

    Target: the Arduino Uno of the README, an AVR board, where [int] has
    16 bits and [double] is the IEEE binary32 format. *)

From Stdlib Require Import String.
From Stdlib Require Import ZArith List Bool Lia.
From Stdlib Require Import Floats.SpecFloat.
Import ListNotations.
Local Open Scope Z_scope.

#[local] Set Warnings "-register-all".

(* ================================================================= *)
(** ** Machine integers and floating point of the target *)

Definition INT_MAX : Z := 32767.
Definition INT_MIN : Z := -32768.

Definition in_int (z : Z) : bool := (INT_MIN <=? z) && (z <=? INT_MAX).

Definition HIGH : Z := 1.
Definition LOW : Z := 0.

Module Float32.

Definition prec : Z := 24.
Definition emax : Z := 128.

(** Conversion of an integer to floating point (round to nearest even). *)
Definition of_int (z : Z) : spec_float := binary_normalize prec emax z 0 false.

Definition mul : spec_float -> spec_float -> spec_float := SFmul prec emax.
Definition div : spec_float -> spec_float -> spec_float := SFdiv prec emax.

(** The literal [0.034]: the float nearest to 34/1000, which the correctly
    rounded quotient of the two exactly representable integers is. *)
Definition lit_0_034 : spec_float := div (of_int 34) (of_int 1000).

(** Conversion of a floating value to [int]: the fraction is dropped
    (rounding toward zero); there is no result for a value outside the
    range of [int], nor for an infinity or a NaN. *)
Definition to_int (f : spec_float) : option Z :=
  match f with
  | S754_zero _ => Some 0
  | S754_finite s m e =>
      let a := if 0 <=? e then Z.shiftl (Z.pos m) e
               else Z.shiftr (Z.pos m) (- e) in
      let v := if s then - a else a in
      if in_int v then Some v else None
  | S754_infinity _ => None
  | S754_nan => None
  end.

End Float32.

(* ================================================================= *)
(** ** Pins, globals, inputs and events *)

Definition stepPin : Z := 2.
Definition dirPin : Z := 3.
Definition trigPin : Z := 9.
Definition echoPin : Z := 10.
Definition buttonPin : Z := 5.
Definition buzzerPin : Z := 11.

Inductive pin_mode : Type := INPUT | OUTPUT.

(** The globals the sketch mutates. *)
Record state : Type := mkState {
  buttonState : Z;
  buttonIsActive : bool;
  currThreshold : Z
}.

(** What the hardware delivers in one control cycle: whether the button pin
    reads HIGH, and the width in microseconds that [pulseIn(echoPin, HIGH)]
    returns.  [pulseIn] returns 0 when no echo pulse arrives in time. *)
Record input : Type := mkInput {
  button : bool;
  echo_us : Z
}.

(** The functions of the sketch that [loop] calls. *)
Inductive func : Type :=
| F_rotateStepper
| F_retractStepper
| F_beep (btone bDelay : Z)
| F_getDistance.

(** Calls into the Arduino core, and calls of the sketch's own functions
    with the events of their bodies. *)
Inductive event : Type :=
| SerialBegin (baud : Z)
| PinMode (pin : Z) (m : pin_mode)
| DigitalWrite (pin level : Z)
| DigitalRead (pin level : Z)
| PulseIn (pin level width : Z)
| DelayMicroseconds (us : Z)
| Delay (ms : Z)
| Tone (pin freq : Z)
| NoTone (pin : Z)
| SerialPrint (s : string)
| SerialPrintln (s : string)
| SerialPrintlnInt (n : Z)
| Call (f : func) (body : list event).

Definition trace : Type := list event.

(* ================================================================= *)
(** ** The monad of the sketch *)

Definition M (A : Type) : Type :=
  input -> state -> option (A * state * trace).

Definition ret {A : Type} (a : A) : M A :=
  fun _ s => Some (a, s, []).

Definition bind {A B : Type} (m : M A) (k : A -> M B) : M B :=
  fun i s =>
    match m i s with
    | None => None
    | Some (a, s1, t1) =>
        match k a i s1 with
        | None => None
        | Some (b, s2, t2) => Some (b, s2, t1 ++ t2)
        end
    end.

Declare Scope sketch_scope.
Delimit Scope sketch_scope with sketch.
Notation "x <- m ;; k" := (bind m (fun x => k))
  (at level 61, m at next level, right associativity) : sketch_scope.
Notation "m ;; k" := (bind m (fun _ => k))
  (at level 61, right associativity) : sketch_scope.
Local Open Scope sketch_scope.

(** Undefined behaviour: the cycle has no result. *)
Definition undefined {A : Type} : M A := fun _ _ => None.

Definition emit (e : event) : M unit := fun _ s => Some (tt, s, [e]).

Definition load {A : Type} (field : state -> A) : M A :=
  fun _ s => Some (field s, s, []).

Definition store (upd : state -> state) : M unit :=
  fun _ s => Some (tt, upd s, []).

Definition set_buttonState (v : Z) : M unit :=
  store (fun s => mkState v (buttonIsActive s) (currThreshold s)).
Definition set_buttonIsActive (v : bool) : M unit :=
  store (fun s => mkState (buttonState s) v (currThreshold s)).
Definition set_currThreshold (v : Z) : M unit :=
  store (fun s => mkState (buttonState s) (buttonIsActive s) v).

(** A call of one of the sketch's functions: its events are nested under
    the call. *)
Definition call {A : Type} (f : func) (body : M A) : M A :=
  fun i s =>
    match body i s with
    | None => None
    | Some (a, s1, t) => Some (a, s1, [Call f t])
    end.

(** Arithmetic on [int]: overflow is undefined. *)
Definition int_add (a b : Z) : M Z :=
  if in_int (a + b) then ret (a + b) else undefined.
Definition int_mul (a b : Z) : M Z :=
  if in_int (a * b) then ret (a * b) else undefined.

(** [for (int i = lo; i < hi; i++) body]. *)
Fixpoint for_count (n : nat) (i : Z) (body : Z -> M unit) : M unit :=
  match n with
  | O => ret tt
  | S n' => body i ;; for_count n' (i + 1) body
  end.
Definition for_ (lo hi : Z) (body : Z -> M unit) : M unit :=
  for_count (Z.to_nat (hi - lo)) lo body.

(** The Arduino core. *)
Definition pinMode (pin : Z) (m : pin_mode) : M unit := emit (PinMode pin m).
Definition digitalWrite (pin level : Z) : M unit := emit (DigitalWrite pin level).
Definition delayMicroseconds (us : Z) : M unit := emit (DelayMicroseconds us).
Definition delay (ms : Z) : M unit := emit (Delay ms).
Definition tone (pin freq : Z) : M unit := emit (Tone pin freq).
Definition noTone (pin : Z) : M unit := emit (NoTone pin).
Definition Serial_begin (baud : Z) : M unit := emit (SerialBegin baud).
Definition Serial_print (s : string) : M unit := emit (SerialPrint s).
Definition Serial_println (s : string) : M unit := emit (SerialPrintln s).
Definition Serial_println_int (n : Z) : M unit := emit (SerialPrintlnInt n).

(** The only pin the sketch reads is the button pin. *)
Definition digitalRead (pin : Z) : M Z :=
  fun i s =>
    let v := if button i then HIGH else LOW in
    Some (v, s, [DigitalRead pin v]).

Definition pulseIn (pin level : Z) : M Z :=
  fun i s => Some (echo_us i, s, [PulseIn pin level (echo_us i)]).

(* ================================================================= *)
(** ** The sketch *)

(** The constants that size the two motions.  The sketch fixes them at
    compile time; they are gathered in a record so that the motions can be
    compared under a different choice. *)
Record tuning : Type := mkTuning {
  stepsPerRevolution : Z;   (* const int stepsPerRevolution *)
  rotateTurns : Z;          (* the factor of the loop limit of rotateStepper *)
  rotatePulse : Z;          (* first delayMicroseconds of rotateStepper *)
  rotateInterval : Z;       (* second delayMicroseconds of rotateStepper *)
  retractPulse : Z;         (* first delayMicroseconds of retractStepper *)
  retractInterval : Z       (* second delayMicroseconds of retractStepper *)
}.

Definition sketch : tuning :=
  {| stepsPerRevolution := 100;
     rotateTurns := 2;
     rotatePulse := 5000;
     rotateInterval := 5000;
     retractPulse := 5000;
     retractInterval := 5000 |}.

(** The sketch with another number of steps per revolution. *)
Definition with_stepsPerRevolution (n : Z) (t : tuning) : tuning :=
  {| stepsPerRevolution := n;
     rotateTurns := rotateTurns t;
     rotatePulse := rotatePulse t;
     rotateInterval := rotateInterval t;
     retractPulse := retractPulse t;
     retractInterval := retractInterval t |}.

Definition half_portion : tuning := with_stepsPerRevolution 50 sketch.

Definition Threshold : Z := 2.

Definition power_on : state :=
  {| buttonState := 0; buttonIsActive := false; currThreshold := 0 |}.

Definition setup : M unit :=
  Serial_begin 9600 ;;
  pinMode stepPin OUTPUT ;;
  pinMode dirPin OUTPUT ;;
  pinMode trigPin OUTPUT ;;
  pinMode echoPin INPUT ;;
  pinMode buttonPin INPUT ;;
  pinMode buzzerPin OUTPUT.

Definition rotateStepper (t : tuning) : M unit :=
  call F_rotateStepper
    (digitalWrite dirPin LOW ;;
     limit <- int_mul (stepsPerRevolution t) (rotateTurns t) ;;
     for_ 0 limit (fun _ =>
       digitalWrite stepPin HIGH ;;
       delayMicroseconds (rotatePulse t) ;;
       digitalWrite stepPin LOW ;;
       delayMicroseconds (rotateInterval t))).

Definition retractStepper (t : tuning) : M unit :=
  call F_retractStepper
    (digitalWrite dirPin HIGH ;;
     for_ 0 (stepsPerRevolution t) (fun _ =>
       digitalWrite stepPin HIGH ;;
       delayMicroseconds (retractPulse t) ;;
       digitalWrite stepPin LOW ;;
       delayMicroseconds (retractInterval t))).

Definition beep (btone bDelay : Z) : M unit :=
  call (F_beep btone bDelay)
    (tone buzzerPin btone ;;
     delay bDelay ;;
     noTone buzzerPin ;;
     delay bDelay).

(** [duration * 0.034 / 2], evaluated in floating point and converted to
    [int]. *)
Definition to_cm (duration : Z) : option Z :=
  Float32.to_int
    (Float32.div (Float32.mul (Float32.of_int duration) Float32.lit_0_034)
                 (Float32.of_int 2)).

Definition getDistance : M Z :=
  call F_getDistance
    (digitalWrite trigPin LOW ;;
     delayMicroseconds 2 ;;
     digitalWrite trigPin HIGH ;;
     delayMicroseconds 10 ;;
     digitalWrite trigPin LOW ;;
     duration <- pulseIn echoPin HIGH ;;
     match to_cm duration with
     | Some distance => ret distance
     | None => undefined
     end).

Definition loop : M unit :=
  b <- digitalRead buttonPin ;;
  set_buttonState b ;;
  pressed <- load buttonState ;;
  (if pressed =? HIGH
   then rotateStepper sketch ;; set_buttonIsActive true
   else set_buttonIsActive false) ;;
  Serial_print "Value: "%string ;;
  distance <- getDistance ;;
  Serial_println_int distance ;;
  (if distance <? 30
   then c <- load currThreshold ;;
        c1 <- int_add c 1 ;;
        set_currThreshold c1 ;;
        Serial_println "upping one"%string
   else set_currThreshold 0 ;;
        Serial_println "Cancelling"%string) ;;
  c <- load currThreshold ;;
  active <- load buttonIsActive ;;
  (if (c =? Threshold) && negb active
   then Serial_println "RAN"%string ;;
        beep 1000 500 ;;
        for_ 0 1 (fun _ =>
          rotateStepper sketch ;;
          delay 10 ;;
          retractStepper sketch) ;;
        delay 3000 ;;
        beep 3000 80 ;;
        beep 3000 80
   else ret tt) ;;
  c <- load currThreshold ;;
  (if c >? 3
   then beep 500 1000 ;;
        Serial_println "delaying, object blocking sensor"%string
   else ret tt) ;;
  delay 100.

(** One control cycle: [loop] on the inputs of the cycle. *)
Definition cycle (s : state) (i : input) : option (state * trace) :=
  match loop i s with
  | None => None
  | Some (_, s1, t) => Some (s1, t)
  end.

(** Consecutive control cycles: the state after each cycle with the events
    of that cycle. *)
Fixpoint cycles (s : state) (ins : list input) : option (list (state * trace)) :=
  match ins with
  | [] => Some []
  | i :: rest =>
      match cycle s i with
      | None => None
      | Some (s1, t) =>
          match cycles s1 rest with
          | None => None
          | Some outs => Some ((s1, t) :: outs)
          end
      end
  end.

(* ================================================================= *)
(** ** What is observed of a trace *)

(** The calls of the sketch's functions and the pauses that [loop] makes
    itself, in order; the bodies of the calls and the serial log are left
    out. *)
Inductive step : Type :=
| Did (f : func)
| Paused (ms : Z).

Definition step_of (e : event) : list step :=
  match e with
  | Call f _ => [Did f]
  | Delay ms => [Paused ms]
  | _ => []
  end.

Definition steps (t : trace) : list step := flat_map step_of t.

Definition func_eqb (f g : func) : bool :=
  match f, g with
  | F_rotateStepper, F_rotateStepper => true
  | F_retractStepper, F_retractStepper => true
  | F_beep a b, F_beep c d => (a =? c) && (b =? d)
  | F_getDistance, F_getDistance => true
  | _, _ => false
  end.

Definition step_eqb (x y : step) : bool :=
  match x, y with
  | Did f, Did g => func_eqb f g
  | Paused a, Paused b => a =? b
  | _, _ => false
  end.

Fixpoint starts_with (p l : list step) : bool :=
  match p, l with
  | [], _ => true
  | x :: p', y :: l' => step_eqb x y && starts_with p' l'
  | _ :: _, [] => false
  end.

(** Number of positions of [l] at which the block [p] begins. *)
Fixpoint occurrences (p l : list step) : nat :=
  match l with
  | [] => O
  | _ :: l' => ((if starts_with p l then 1 else 0) + occurrences p l')%nat
  end.

Definition count_step (x : step) (l : list step) : nat :=
  List.length (filter (step_eqb x) l).

(** The automatic dispense: pre-beep, one dispense motion, short pause, one
    retract motion, pause, two confirmation beeps. *)
Definition automatic_dispense : list step :=
  [ Did (F_beep 1000 500);
    Did F_rotateStepper; Paused 10; Did F_retractStepper;
    Paused 3000;
    Did (F_beep 3000 80); Did (F_beep 3000 80) ].

(** The block warning: one long low beep. *)
Definition block_warning : step := Did (F_beep 500 1000).

Definition auto_dispenses (t : trace) : nat :=
  occurrences automatic_dispense (steps t).

Definition block_warnings (t : trace) : nat :=
  count_step block_warning (steps t).

(** The motions and beeps of a trace: every call of the sketch's functions
    but the sensor read. *)
Definition actuation_of (x : step) : list func :=
  match x with
  | Did F_getDistance => []
  | Did f => [f]
  | Paused _ => []
  end.

Definition actuations (t : trace) : list func :=
  flat_map actuation_of (steps t).

(** Time a trace spends in [delay] and [delayMicroseconds], in
    microseconds. *)
Fixpoint event_us (e : event) : Z :=
  match e with
  | DelayMicroseconds us => us
  | Delay ms => 1000 * ms
  | Call _ body => fold_right (fun e acc => event_us e + acc) 0 body
  | _ => 0
  end.

Definition duration_us (t : trace) : Z :=
  fold_right (fun e acc => event_us e + acc) 0 t.

(** Number of step pulses (rising edges on the STEP pin) in a trace. *)
Fixpoint event_pulses (e : event) : Z :=
  match e with
  | DigitalWrite pin level =>
      if (pin =? stepPin) && (level =? HIGH) then 1 else 0
  | Call _ body => fold_right (fun e acc => event_pulses e + acc) 0 body
  | _ => 0
  end.

Definition pulses (t : trace) : Z :=
  fold_right (fun e acc => event_pulses e + acc) 0 t.

(** The events of a motion: the stepper functions touch no global and read
    no input, so they are run from power-on on idle inputs. *)
Definition motion (m : M unit) : option trace :=
  match m (mkInput false 0) power_on with
  | None => None
  | Some (_, _, t) => Some t
  end.

(* ================================================================= *)
(** ** The vocabulary of the specification *)

(** The names of the specification for the constants of the sketch: the
    literal 30 of the distance test, [Threshold], and the literal 3 of the
    blocked-sensor test. *)
Definition NEAR_LIMIT : Z := 30.
Definition DispenseThreshold : Z := Threshold.
Definition BlockWarningThreshold : Z := 3.

(** A sample is near when its distance is below the near limit. *)
Definition near (d : Z) : bool := d <? NEAR_LIMIT.

(** The distance sample of a cycle: what [getDistance] returns on the echo
    of that cycle. *)
Definition reading (i : input) : option Z := to_cm (echo_us i).

Fixpoint take_while {A : Type} (p : A -> bool) (l : list A) : list A :=
  match l with
  | [] => []
  | x :: l' => if p x then x :: take_while p l' else []
  end.

(** Length of the longest suffix of near samples. *)
Definition run_length (ds : list Z) : nat :=
  List.length (take_while near (rev ds)).

(** The states and the traces of a sequence of cycles. *)
Definition counters (outs : list (state * trace)) : list Z :=
  map (fun o => currThreshold (fst o)) outs.

Fixpoint final (s : state) (outs : list (state * trace)) : state :=
  match outs with
  | [] => s
  | o :: rest => final (fst o) rest
  end.

(** No run of near samples is longer than an [int] can count. *)
Definition within_int (ds : list Z) : Prop :=
  forall n : nat, Z.of_nat (run_length (firstn n ds)) <= INT_MAX.

(** A cycle reads a near sample. *)
Definition is_near (i : input) : bool :=
  match reading i with
  | Some d => near d
  | None => false
  end.

(** Automatic dispenses in a sequence of cycles. *)
Definition total_auto_dispenses (outs : list (state * trace)) : nat :=
  list_sum (map (fun o => auto_dispenses (snd o)) outs).

(* ================================================================= *)
(** ** The events of the sketch's functions and of a cycle, in closed form

    Nothing below is assumed of the sketch: the lemmas [rotateStepper_run],
    [retractStepper_run], [beep_run], [getDistance_run] and [cycle_run]
    prove that running the monadic programs yields these events. *)

(** One step pulse of the stepper driver. *)
Definition step_pulse (high_us low_us : Z) : trace :=
  [ DigitalWrite stepPin HIGH; DelayMicroseconds high_us;
    DigitalWrite stepPin LOW; DelayMicroseconds low_us ].

Definition rotate_events (t : tuning) : trace :=
  DigitalWrite dirPin LOW ::
  concat (repeat (step_pulse (rotatePulse t) (rotateInterval t))
                 (Z.to_nat (stepsPerRevolution t * rotateTurns t))).

Definition retract_events (t : tuning) : trace :=
  DigitalWrite dirPin HIGH ::
  concat (repeat (step_pulse (retractPulse t) (retractInterval t))
                 (Z.to_nat (stepsPerRevolution t))).

Definition beep_events (btone bDelay : Z) : trace :=
  [ Tone buzzerPin btone; Delay bDelay; NoTone buzzerPin; Delay bDelay ].

Definition getDistance_events (width : Z) : trace :=
  [ DigitalWrite trigPin LOW; DelayMicroseconds 2;
    DigitalWrite trigPin HIGH; DelayMicroseconds 10;
    DigitalWrite trigPin LOW; PulseIn echoPin HIGH width ].

Definition level_of (b : bool) : Z := if b then HIGH else LOW.

Definition manual_events (b : bool) : trace :=
  if b then [Call F_rotateStepper (rotate_events sketch)] else [].

Definition sensing_events (width d : Z) : trace :=
  [ SerialPrint "Value: "%string;
    Call F_getDistance (getDistance_events width);
    SerialPrintlnInt d;
    SerialPrintln (if d <? 30 then "upping one"%string
                   else "Cancelling"%string) ].

Definition automatic_events : trace :=
  [ SerialPrintln "RAN"%string;
    Call (F_beep 1000 500) (beep_events 1000 500);
    Call F_rotateStepper (rotate_events sketch);
    Delay 10;
    Call F_retractStepper (retract_events sketch);
    Delay 3000;
    Call (F_beep 3000 80) (beep_events 3000 80);
    Call (F_beep 3000 80) (beep_events 3000 80) ].

Definition warning_events : trace :=
  [ Call (F_beep 500 1000) (beep_events 500 1000);
    SerialPrintln "delaying, object blocking sensor"%string ].

Definition cycle_events (b : bool) (width d c1 : Z) : trace :=
  DigitalRead buttonPin (level_of b) ::
  manual_events b ++
  sensing_events width d ++
  (if (c1 =? Threshold) && negb b then automatic_events else []) ++
  (if c1 >? 3 then warning_events else []) ++
  [Delay 100].

(** The counter after a cycle that reads distance [d]. *)
Definition next_count (c d : Z) : Z := if d <? 30 then c + 1 else 0.

Definition after_cycle (s : state) (i : input) (d : Z) : state :=
  {| buttonState := level_of (button i);
     buttonIsActive := button i;
     currThreshold := next_count (currThreshold s) d |}.

(** What is observed of a cycle depends on the button and on the counter
    after the filter only. *)
Definition cycle_steps (b : bool) (c1 : Z) : list step :=
  (if b then [Did F_rotateStepper] else []) ++
  [Did F_getDistance] ++
  (if (c1 =? Threshold) && negb b then automatic_dispense else []) ++
  (if c1 >? 3 then [block_warning] else []) ++
  [Paused 100].

(* ================================================================= *)
(** ** The outputs as the stepper driver, the sensor and the buzzer see them *)

(** The levels of the three output pins the sketch writes with
    [digitalWrite], the tone on the buzzer pin, and the position of the
    auger in steps.  The driver makes one step on every rising edge of
    STEP: forward when DIR is LOW, the direction [rotateStepper] selects,
    backward when DIR is HIGH, the direction [retractStepper] selects. *)
Record outputs : Type := mkOutputs {
  step_level : Z;
  dir_level : Z;
  trig_level : Z;
  sounding : option Z;
  position : Z
}.

(** All outputs low and silent, as the pins are once [setup] has made them
    outputs. *)
Definition idle : outputs :=
  {| step_level := LOW; dir_level := LOW; trig_level := LOW;
     sounding := None; position := 0 |}.

Definition write_pin (pin level : Z) (h : outputs) : outputs :=
  if pin =? stepPin then
    {| step_level := level;
       dir_level := dir_level h;
       trig_level := trig_level h;
       sounding := sounding h;
       position :=
         if (step_level h =? LOW) && (level =? HIGH)
         then position h + (if dir_level h =? LOW then 1 else -1)
         else position h |}
  else if pin =? dirPin then
    {| step_level := step_level h; dir_level := level;
       trig_level := trig_level h; sounding := sounding h;
       position := position h |}
  else if pin =? trigPin then
    {| step_level := step_level h; dir_level := dir_level h;
       trig_level := level; sounding := sounding h;
       position := position h |}
  else h.

Definition set_sounding (f : option Z) (h : outputs) : outputs :=
  {| step_level := step_level h; dir_level := dir_level h;
     trig_level := trig_level h; sounding := f; position := position h |}.

Fixpoint drive (e : event) (h : outputs) : outputs :=
  match e with
  | DigitalWrite pin level => write_pin pin level h
  | Tone pin freq => if pin =? buzzerPin then set_sounding (Some freq) h else h
  | NoTone pin => if pin =? buzzerPin then set_sounding None h else h
  | Call _ body => fold_left (fun h1 e1 => drive e1 h1) body h
  | _ => h
  end.

Definition drive_all (t : trace) (h : outputs) : outputs :=
  fold_left (fun h1 e1 => drive e1 h1) t h.

(** The events of all the cycles of a history, in order. *)
Definition history_trace (outs : list (state * trace)) : trace :=
  concat (map snd outs).

(** Number of cycles in which the button reads HIGH. *)
Definition held_cycles (ins : list input) : nat :=
  List.length (filter button ins).

(* ================================================================= *)
(** ** The inputs a trace reads and the pins it uses *)

(** The reads of the hardware inputs, in order, calls included. *)
Fixpoint event_reads (e : event) : list event :=
  match e with
  | DigitalRead _ _ => [e]
  | PulseIn _ _ _ => [e]
  | Call _ body => flat_map event_reads body
  | _ => []
  end.

Definition reads (t : trace) : list event := flat_map event_reads t.

(** The mode a trace has last given to a pin with [pinMode]. *)
Fixpoint configured (t : trace) (pin : Z) : option pin_mode :=
  match t with
  | [] => None
  | PinMode p m :: rest =>
      match configured rest pin with
      | Some m1 => Some m1
      | None => if p =? pin then Some m else None
      end
  | _ :: rest => configured rest pin
  end.

Definition is_output (m : option pin_mode) : bool :=
  match m with Some OUTPUT => true | _ => false end.

Definition is_input (m : option pin_mode) : bool :=
  match m with Some INPUT => true | _ => false end.

(** An event uses its pin the way the pin was configured: it writes or
    sounds an output, it reads an input. *)
Fixpoint respects (cfg : Z -> option pin_mode) (e : event) : bool :=
  match e with
  | DigitalWrite pin _ => is_output (cfg pin)
  | Tone pin _ => is_output (cfg pin)
  | NoTone pin => is_output (cfg pin)
  | DigitalRead pin _ => is_input (cfg pin)
  | PulseIn pin _ _ => is_input (cfg pin)
  | Call _ body => forallb (respects cfg) body
  | _ => true
  end.

(** The pin modes after [setup]. *)
Definition setup_modes : Z -> option pin_mode :=
  match setup (mkInput false 0) power_on with
  | Some (_, _, t) => configured t
  | None => fun _ => None
  end.

(* ================================================================= *)
(** ** The states the sketch reaches *)

Inductive reachable : state -> Prop :=
| reachable_power_on : reachable power_on
| reachable_cycle s i s1 t :
    reachable s -> cycle s i = Some (s1, t) -> reachable s1.

(** [p] holds of the [n] integers from [lo] on. *)
Fixpoint all_from (p : Z -> bool) (lo : Z) (n : nat) : bool :=
  match n with
  | O => true
  | S n1 => p lo && all_from p (lo + 1) n1
  end.

(** An echo width converts to a distance between 0 and 510 that is near
    exactly when the width is below 1765 microseconds. *)
Definition echo_converts (width : Z) : bool :=
  match to_cm width with
  | Some d => (0 <=? d) && (d <=? 510) && Bool.eqb (near d) (width <? 1765)
  | None => false
  end.

(* ================================================================= *)
(** ** The distance conversion on a few echo widths *)

Example to_cm_no_echo : to_cm 0 = Some 0.
Proof. vm_compute. reflexivity. Qed.

Example to_cm_20 : to_cm 1200 = Some 20.
Proof. vm_compute. reflexivity. Qed.

(** The near limit of 30 lies between echoes of 1764 and 1765
    microseconds. *)
Example to_cm_limit : to_cm 1764 = Some 29 /\ to_cm 1765 = Some 30.
Proof. split; vm_compute; reflexivity. Qed.

(** An echo too long for the distance to fit an [int]. *)
Example to_cm_out_of_range : to_cm 2000000 = None.
Proof. vm_compute. reflexivity. Qed.

(* ================================================================= *)
(** ** The monad: how programs run *)

Lemma bind_run {A B : Type} (m : M A) (k : A -> M B) i s a s1 t1 :
  m i s = Some (a, s1, t1) ->
  bind m k i s =
  match k a i s1 with
  | None => None
  | Some (b, s2, t2) => Some (b, s2, t1 ++ t2)
  end.
Proof. intros H. unfold bind. rewrite H. reflexivity. Qed.

Lemma bind_undefined {A B : Type} (m : M A) (k : A -> M B) i s :
  m i s = None -> bind m k i s = None.
Proof. intros H. unfold bind. rewrite H. reflexivity. Qed.

(** A loop whose body only emits the same events on every turn. *)
Lemma for_count_emits (evs : trace) (body : Z -> M unit) :
  (forall j i s, body j i s = Some (tt, s, evs)) ->
  forall n lo i s,
    for_count n lo body i s = Some (tt, s, concat (repeat evs n)).
Proof.
  intros Hbody. induction n as [|n IH]; intros lo i s; simpl.
  - reflexivity.
  - rewrite (bind_run _ _ i s tt s evs (Hbody lo i s)).
    rewrite IH. reflexivity.
Qed.

Lemma rotateStepper_run t i s :
  rotateStepper t i s =
  if in_int (stepsPerRevolution t * rotateTurns t)
  then Some (tt, s, [Call F_rotateStepper (rotate_events t)])
  else None.
Proof.
  unfold rotateStepper, call, int_mul.
  destruct (in_int (stepsPerRevolution t * rotateTurns t)) eqn:E.
  - unfold bind at 1. cbn [digitalWrite emit].
    unfold bind at 1. cbn [ret]. unfold for_.
    rewrite (for_count_emits (step_pulse (rotatePulse t) (rotateInterval t))).
    + rewrite Z.sub_0_r. reflexivity.
    + intros j i0 s0. reflexivity.
  - reflexivity.
Qed.

Lemma retractStepper_run t i s :
  retractStepper t i s = Some (tt, s, [Call F_retractStepper (retract_events t)]).
Proof.
  unfold retractStepper, call.
  unfold bind at 1. cbn [digitalWrite emit]. unfold for_.
  rewrite (for_count_emits (step_pulse (retractPulse t) (retractInterval t))).
  - rewrite Z.sub_0_r. reflexivity.
  - intros j i0 s0. reflexivity.
Qed.

Lemma beep_run btone bDelay i s :
  beep btone bDelay i s =
  Some (tt, s, [Call (F_beep btone bDelay) (beep_events btone bDelay)]).
Proof. reflexivity. Qed.

Lemma getDistance_run i s :
  getDistance i s =
  match to_cm (echo_us i) with
  | Some d => Some (d, s, [Call F_getDistance (getDistance_events (echo_us i))])
  | None => None
  end.
Proof.
  unfold getDistance, call, bind; cbn [digitalWrite delayMicroseconds emit pulseIn].
  destruct (to_cm (echo_us i)); reflexivity.
Qed.

(* ================================================================= *)
(** ** One control cycle in closed form *)

Lemma rotateStepper_sketch i s :
  rotateStepper sketch i s =
  Some (tt, s, [Call F_rotateStepper (rotate_events sketch)]).
Proof. rewrite rotateStepper_run. reflexivity. Qed.

Ltac run_bind :=
  erewrite bind_run by
    first [ apply rotateStepper_sketch | apply retractStepper_run
          | apply beep_run | reflexivity ];
  cbv beta.

Lemma tail_run (c1 : Z) (b : bool) i s :
  currThreshold s = c1 -> buttonIsActive s = b ->
  (c <- load currThreshold ;;
   active <- load buttonIsActive ;;
   (if (c =? Threshold) && negb active
    then Serial_println "RAN"%string ;;
         beep 1000 500 ;;
         for_ 0 1 (fun _ =>
           rotateStepper sketch ;;
           delay 10 ;;
           retractStepper sketch) ;;
         delay 3000 ;;
         beep 3000 80 ;;
         beep 3000 80
    else ret tt) ;;
   c <- load currThreshold ;;
   (if c >? 3
    then beep 500 1000 ;;
         Serial_println "delaying, object blocking sensor"%string
    else ret tt) ;;
   delay 100) i s =
  Some (tt, s,
        (if (c1 =? Threshold) && negb b then automatic_events else []) ++
        (if c1 >? 3 then warning_events else []) ++ [Delay 100]).
Proof.
  intros Hc Hb.
  assert (Hauto :
    (Serial_println "RAN"%string ;;
     beep 1000 500 ;;
     for_ 0 1 (fun _ =>
       rotateStepper sketch ;; delay 10 ;; retractStepper sketch) ;;
     delay 3000 ;; beep 3000 80 ;; beep 3000 80) i s
    = Some (tt, s, automatic_events)).
  { run_bind. run_bind.
    erewrite bind_run.
    2:{ unfold for_. change (Z.to_nat (1 - 0)) with 1%nat.
        cbn [for_count]. cbv beta. erewrite bind_run.
        2:{ run_bind. run_bind. rewrite retractStepper_run. reflexivity. }
        reflexivity. }
    run_bind. run_bind. rewrite beep_run. reflexivity. }
  assert (Hwarn :
    (beep 500 1000 ;;
     Serial_println "delaying, object blocking sensor"%string) i s
    = Some (tt, s, warning_events)).
  { reflexivity. }
  unfold bind at 1. cbn [load]. rewrite Hc.
  unfold bind at 1. cbn [load]. rewrite Hb.
  unfold bind at 1.
  destruct ((c1 =? Threshold) && negb b).
  - rewrite Hauto. unfold bind at 1. cbn [load]. rewrite Hc.
    unfold bind at 1.
    destruct (c1 >? 3).
    + rewrite Hwarn. reflexivity.
    + reflexivity.
  - cbn [ret]. unfold bind at 1. cbn [load]. rewrite Hc.
    unfold bind at 1.
    destruct (c1 >? 3).
    + rewrite Hwarn. reflexivity.
    + reflexivity.
Qed.

Lemma manual_run (b : bool) i s :
  (if level_of b =? HIGH
   then rotateStepper sketch ;; set_buttonIsActive true
   else set_buttonIsActive false) i s =
  Some (tt,
        {| buttonState := buttonState s;
           buttonIsActive := b;
           currThreshold := currThreshold s |},
        manual_events b).
Proof.
  destruct b; cbn [level_of Z.eqb HIGH LOW Pos.eqb].
  - run_bind. reflexivity.
  - reflexivity.
Qed.

Lemma filter_run (d : Z) i s :
  (if d <? 30
   then c <- load currThreshold ;;
        c1 <- int_add c 1 ;;
        set_currThreshold c1 ;;
        Serial_println "upping one"%string
   else set_currThreshold 0 ;;
        Serial_println "Cancelling"%string) i s =
  if (d <? 30) && negb (in_int (currThreshold s + 1)) then None
  else Some (tt,
             {| buttonState := buttonState s;
                buttonIsActive := buttonIsActive s;
                currThreshold := next_count (currThreshold s) d |},
             [SerialPrintln (if d <? 30 then "upping one"%string
                             else "Cancelling"%string)]).
Proof.
  unfold next_count. destruct (d <? 30); cbn [andb].
  - unfold bind at 1. cbn [load]. unfold int_add.
    destruct (in_int (currThreshold s + 1)); reflexivity.
  - reflexivity.
Qed.

(** The whole of [loop] on a cycle whose echo converts to distance [d]. *)
Lemma cycle_run s i d :
  reading i = Some d ->
  cycle s i =
  if (d <? 30) && negb (in_int (currThreshold s + 1)) then None
  else Some (after_cycle s i d,
             cycle_events (button i) (echo_us i) d
                          (next_count (currThreshold s) d)).
Proof.
  intros Hd. unfold reading in Hd. unfold cycle, loop.
  (* the button *)
  run_bind. run_bind. run_bind.
  erewrite bind_run by apply (manual_run (button i)).
  (* the sensor read *)
  run_bind.
  erewrite bind_run by (rewrite getDistance_run, Hd; reflexivity).
  run_bind.
  (* the filter and the decisions *)
  unfold bind at 1. rewrite filter_run.
  cbn [currThreshold buttonState buttonIsActive].
  destruct ((d <? 30) && negb (in_int (currThreshold s + 1))); [reflexivity|].
  erewrite tail_run by reflexivity.
  unfold after_cycle, cycle_events, sensing_events.
  cbn [app]. reflexivity.
Qed.

Lemma steps_cycle_events b width d c1 :
  steps (cycle_events b width d c1) = cycle_steps b c1.
Proof.
  unfold cycle_events, cycle_steps, manual_events.
  destruct b, ((c1 =? Threshold)), (c1 >? 3); reflexivity.
Qed.

Lemma cycle_undefined s i : reading i = None -> cycle s i = None.
Proof.
  intros Hd. unfold reading in Hd. unfold cycle, loop.
  run_bind. run_bind. run_bind.
  erewrite bind_run by apply (manual_run (button i)).
  run_bind.
  rewrite bind_undefined; [reflexivity|].
  rewrite getDistance_run, Hd. reflexivity.
Qed.

(** Every cycle that has a result is the closed form on the distance it
    read. *)
Lemma cycle_inv s i s1 t :
  cycle s i = Some (s1, t) ->
  exists d,
    reading i = Some d /\
    s1 = after_cycle s i d /\
    t = cycle_events (button i) (echo_us i) d (currThreshold s1) /\
    ((d <? 30) = true -> in_int (currThreshold s + 1) = true).
Proof.
  intros H. destruct (reading i) as [d|] eqn:Hd.
  - rewrite (cycle_run s i d Hd) in H. exists d.
    destruct (d <? 30) eqn:En; cbn [andb] in H.
    + destruct (in_int (currThreshold s + 1)) eqn:Ei; cbn [negb] in H;
        [|discriminate].
      injection H as <- <-. auto.
    + injection H as <- <-. repeat split; auto. discriminate.
  - rewrite (cycle_undefined s i Hd) in H. discriminate.
Qed.

Lemma cycle_defined s i d :
  reading i = Some d ->
  (near d = true -> in_int (currThreshold s + 1) = true) ->
  cycle s i =
  Some (after_cycle s i d,
        cycle_events (button i) (echo_us i) d (next_count (currThreshold s) d)).
Proof.
  intros Hd Hin. rewrite (cycle_run s i d Hd).
  unfold near, NEAR_LIMIT in Hin.
  destruct (d <? 30); cbn [andb]; [|reflexivity].
  rewrite Hin by reflexivity. reflexivity.
Qed.

(** At the largest [int] the next near sample overflows the counter: the
    cycle has no result. *)
Lemma counter_overflow_undefined s i :
  is_near i = true -> currThreshold s = INT_MAX -> cycle s i = None.
Proof.
  intros Hi Hc. unfold is_near in Hi.
  destruct (reading i) as [d|] eqn:Hd; [|discriminate].
  rewrite (cycle_run s i d Hd). unfold near, NEAR_LIMIT in Hi.
  rewrite Hi, Hc. reflexivity.
Qed.

(** The observables of one cycle. *)
Lemma auto_dispenses_steps b c1 :
  occurrences automatic_dispense (cycle_steps b c1) =
  if (c1 =? Threshold) && negb b then 1%nat else 0%nat.
Proof.
  unfold cycle_steps.
  destruct b, (c1 =? Threshold), (c1 >? 3); reflexivity.
Qed.

Lemma block_warnings_steps b c1 :
  count_step block_warning (cycle_steps b c1) =
  if c1 >? 3 then 1%nat else 0%nat.
Proof.
  unfold cycle_steps.
  destruct b, (c1 =? Threshold), (c1 >? 3); reflexivity.
Qed.

Lemma actuations_steps b c1 :
  flat_map actuation_of (cycle_steps b c1) =
  (if b then [F_rotateStepper] else []) ++
  (if (c1 =? Threshold) && negb b
   then [F_beep 1000 500; F_rotateStepper; F_retractStepper;
         F_beep 3000 80; F_beep 3000 80]
   else []) ++
  (if c1 >? 3 then [F_beep 500 1000] else []).
Proof.
  unfold cycle_steps.
  destruct b, (c1 =? Threshold), (c1 >? 3); reflexivity.
Qed.

(* ================================================================= *)
(** ** Sequences of cycles *)

Lemma final_snoc s outs o : final s (outs ++ [o]) = fst o.
Proof.
  revert s. induction outs as [|o1 outs IH]; intros s; simpl; auto.
Qed.

Lemma cycles_snoc s ins i :
  cycles s (ins ++ [i]) =
  match cycles s ins with
  | None => None
  | Some outs =>
      match cycle (final s outs) i with
      | None => None
      | Some o => Some (outs ++ [o])
      end
  end.
Proof.
  revert s. induction ins as [|i1 ins IH]; intros s; cbn [app cycles].
  - cbn [final]. destruct (cycle s i) as [[s1 t]|]; reflexivity.
  - destruct (cycle s i1) as [[s1 t]|]; [|reflexivity].
    rewrite IH. destruct (cycles s1 ins) as [outs|]; [|reflexivity].
    cbn [final fst].
    destruct (cycle (final s1 outs) i) as [o|]; reflexivity.
Qed.

Lemma cycles_length s ins outs :
  cycles s ins = Some outs -> List.length outs = List.length ins.
Proof.
  revert s outs. induction ins as [|i ins IH]; intros s outs H; cbn [cycles] in H.
  - injection H as <-. reflexivity.
  - destruct (cycle s i) as [[s1 t]|]; [|discriminate].
    destruct (cycles s1 ins) as [outs1|] eqn:E; [|discriminate].
    injection H as <-. simpl. f_equal. eauto.
Qed.

Lemma run_length_nil : run_length [] = 0%nat.
Proof. reflexivity. Qed.

Lemma run_length_snoc ds d :
  run_length (ds ++ [d]) = if near d then S (run_length ds) else 0%nat.
Proof.
  unfold run_length. rewrite rev_app_distr. cbn [rev app take_while].
  destruct (near d); reflexivity.
Qed.

Lemma take_while_length {A : Type} (p : A -> bool) (l : list A) :
  (List.length (take_while p l) <= List.length l)%nat.
Proof.
  induction l as [|x l IH]; simpl; [lia|].
  destruct (p x); simpl; lia.
Qed.

Lemma run_length_le ds : (run_length ds <= List.length ds)%nat.
Proof.
  unfold run_length. rewrite <- (length_rev ds). apply take_while_length.
Qed.

(** Short sequences cannot overflow the counter. *)
Lemma within_int_short ds :
  Z.of_nat (List.length ds) <= INT_MAX -> within_int ds.
Proof.
  intros H n. pose proof (run_length_le (firstn n ds)) as H1.
  rewrite length_firstn in H1. lia.
Qed.

Lemma within_int_snoc ds d :
  within_int (ds ++ [d]) ->
  within_int ds /\ Z.of_nat (run_length (ds ++ [d])) <= INT_MAX.
Proof.
  intros H. split.
  - intros n. destruct (Nat.le_gt_cases n (List.length ds)) as [Hn|Hn].
    + specialize (H n). rewrite firstn_app in H.
      replace (n - List.length ds)%nat with 0%nat in H by lia.
      cbn [firstn] in H. rewrite app_nil_r in H. exact H.
    + rewrite firstn_all2 by lia.
      specialize (H (List.length ds)). rewrite firstn_app in H.
      rewrite Nat.sub_diag in H. cbn [firstn] in H.
      rewrite app_nil_r, firstn_all in H. exact H.
  - specialize (H (List.length (ds ++ [d]))). rewrite firstn_all in H. exact H.
Qed.

Lemma sampled_snoc ins i ds :
  map reading (ins ++ [i]) = map Some ds ->
  exists ds1 d,
    ds = ds1 ++ [d] /\ map reading ins = map Some ds1 /\ reading i = Some d.
Proof.
  intros H. destruct ds as [|d ds1 _] using rev_ind.
  - rewrite map_app in H. destruct (map reading ins); discriminate.
  - exists ds1, d. rewrite !map_app in H. cbn [map] in H.
    apply app_inj_tail in H as [H1 H2]. auto.
Qed.

Lemma sampled_length ins ds :
  map reading ins = map Some ds -> List.length ins = List.length ds.
Proof.
  intros H. rewrite <- (length_map reading ins), H. apply length_map.
Qed.

Lemma in_int_counter (n : nat) :
  Z.of_nat n <= INT_MAX -> in_int (Z.of_nat n) = true.
Proof.
  intros H. unfold in_int, INT_MIN, INT_MAX in *.
  apply andb_true_intro. split; apply Z.leb_le; lia.
Qed.

(** The counter follows the length of the current run of near samples. *)
Lemma counter_tracks_run ins :
  forall ds,
    map reading ins = map Some ds ->
    within_int ds ->
    exists outs,
      cycles power_on ins = Some outs /\
      currThreshold (final power_on outs) = Z.of_nat (run_length ds) /\
      counters outs =
      map (fun n => Z.of_nat (run_length (firstn n ds)))
          (seq 1 (List.length ds)).
Proof.
  induction ins as [|i ins IH] using rev_ind; intros ds Hs Hb.
  - destruct ds; [|discriminate]. exists []. repeat split; reflexivity.
  - destruct (sampled_snoc _ _ _ Hs) as (ds1 & d & -> & Hs1 & Hd).
    destruct (within_int_snoc _ _ Hb) as [Hb1 Hlast].
    destruct (IH ds1 Hs1 Hb1) as (outs & Hrun & Hfin & Hcs).
    rewrite cycles_snoc, Hrun.
    rewrite run_length_snoc in Hlast |- *.
    rewrite (cycle_defined _ i d Hd).
    2:{ intros Hn. rewrite Hn in Hlast. rewrite Hfin.
        replace (Z.of_nat (run_length ds1) + 1)
          with (Z.of_nat (S (run_length ds1))) by lia.
        apply in_int_counter, Hlast. }
    eexists. split; [reflexivity|].
    assert (Hnext : next_count (currThreshold (final power_on outs)) d =
                    Z.of_nat (if near d then S (run_length ds1) else 0%nat)).
    { unfold next_count, near, NEAR_LIMIT. rewrite Hfin.
      destruct (d <? 30); lia. }
    split.
    + rewrite final_snoc. cbn [fst after_cycle currThreshold]. exact Hnext.
    + unfold counters in *. rewrite map_app, Hcs. cbn [map fst after_cycle currThreshold].
      rewrite length_app. cbn [List.length].
      rewrite Nat.add_1_r, seq_S, map_app. cbn [map]. f_equal.
      * apply map_ext_in. intros n Hn. apply in_seq in Hn.
        rewrite firstn_app.
        replace (n - List.length ds1)%nat with 0%nat by lia.
        cbn [firstn]. rewrite app_nil_r. reflexivity.
      * rewrite Hnext. f_equal. f_equal.
        replace (1 + List.length ds1)%nat
          with (List.length (ds1 ++ [d])) by (rewrite length_app; simpl; lia).
        rewrite firstn_all, run_length_snoc. reflexivity.
Qed.

Lemma within_int_snoc_intro ds d :
  within_int ds ->
  Z.of_nat (run_length (ds ++ [d])) <= INT_MAX ->
  within_int (ds ++ [d]).
Proof.
  intros Hb Hlast n.
  destruct (Nat.le_gt_cases n (List.length ds)) as [Hn|Hn].
  - rewrite firstn_app.
    replace (n - List.length ds)%nat with 0%nat by lia.
    cbn [firstn]. rewrite app_nil_r. apply Hb.
  - rewrite firstn_all2; [exact Hlast|].
    rewrite length_app. cbn [List.length]. lia.
Qed.

(** The cycles read from power-on all have a result only when every echo
    converts to a distance and no run of near samples outgrows an [int];
    [counter_tracks_run] is the converse. *)
Lemma cycles_defined_only_if ins :
  forall outs,
    cycles power_on ins = Some outs ->
    exists ds, map reading ins = map Some ds /\ within_int ds.
Proof.
  induction ins as [|i ins IH] using rev_ind; intros outs Hrun.
  - exists []. split; [reflexivity|]. intros n. destruct n; cbn; discriminate.
  - rewrite cycles_snoc in Hrun.
    destruct (cycles power_on ins) as [outs1|] eqn:Hrun1; [|discriminate].
    destruct (cycle (final power_on outs1) i) as [[s1 t]|] eqn:Hstep;
      [|discriminate].
    destruct (IH outs1 eq_refl) as (ds & Hs & Hb).
    destruct (cycle_inv _ _ _ _ Hstep) as (d & Hd & _ & _ & Hin).
    destruct (counter_tracks_run ins ds Hs Hb) as (outs2 & Hrun2 & Hfin & _).
    rewrite Hrun1 in Hrun2. injection Hrun2 as <-.
    exists (ds ++ [d]). split.
    + rewrite !map_app, Hs. cbn [map]. rewrite Hd. reflexivity.
    + apply within_int_snoc_intro; [exact Hb|].
      rewrite run_length_snoc. unfold near, NEAR_LIMIT.
      destruct (d <? 30) eqn:En; [|cbn; discriminate].
      specialize (Hin eq_refl). rewrite Hfin in Hin.
      unfold in_int in Hin. apply andb_prop in Hin as [_ Hle].
      apply Z.leb_le in Hle. lia.
Qed.

Lemma cycles_app s ins1 ins2 :
  cycles s (ins1 ++ ins2) =
  match cycles s ins1 with
  | None => None
  | Some outs1 =>
      match cycles (final s outs1) ins2 with
      | None => None
      | Some outs2 => Some (outs1 ++ outs2)
      end
  end.
Proof.
  revert s. induction ins1 as [|i ins1 IH]; intros s; cbn [app cycles].
  - cbn [final]. destruct (cycles s ins2); reflexivity.
  - destruct (cycle s i) as [[s1 t]|]; [|reflexivity].
    rewrite IH. destruct (cycles s1 ins1) as [outs1|]; [|reflexivity].
    cbn [final fst]. destruct (cycles (final s1 outs1) ins2); reflexivity.
Qed.

Lemma is_near_reading i :
  is_near i = true -> exists d, reading i = Some d /\ near d = true.
Proof.
  unfold is_near. destruct (reading i) as [d|]; [eauto|discriminate].
Qed.

Lemma in_int_between (z : Z) : 0 <= z <= INT_MAX -> in_int z = true.
Proof.
  intros H. unfold in_int, INT_MIN, INT_MAX in *.
  apply andb_true_intro. split; apply Z.leb_le; lia.
Qed.

(** A run of near samples: the counter climbs by one in every cycle, and
    what each cycle does follows from the button and the counter. *)
Lemma near_run ins :
  forall s,
    0 <= currThreshold s ->
    currThreshold s + Z.of_nat (List.length ins) <= INT_MAX ->
    forallb is_near ins = true ->
    exists outs,
      cycles s ins = Some outs /\
      forall k i o,
        nth_error ins k = Some i ->
        nth_error outs k = Some o ->
        currThreshold (fst o) = currThreshold s + Z.of_nat (S k) /\
        steps (snd o) = cycle_steps (button i) (currThreshold (fst o)).
Proof.
  induction ins as [|i ins IH]; intros s H0 Hmax Hnear.
  - exists []. split; [reflexivity|]. intros [|k] ? ? H; discriminate H.
  - cbn [forallb] in Hnear. apply andb_prop in Hnear as [Hi Hrest].
    destruct (is_near_reading i Hi) as (d & Hd & Hnd).
    cbn [List.length] in Hmax.
    assert (Hstep : cycle s i =
      Some (after_cycle s i d,
            cycle_events (button i) (echo_us i) d (currThreshold s + 1))).
    { rewrite (cycle_defined s i d Hd).
      - unfold next_count. unfold near, NEAR_LIMIT in Hnd. rewrite Hnd.
        reflexivity.
      - intros _. apply in_int_between. lia. }
    assert (Hc1 : currThreshold (after_cycle s i d) = currThreshold s + 1).
    { cbn [after_cycle currThreshold]. unfold next_count.
      unfold near, NEAR_LIMIT in Hnd. rewrite Hnd. reflexivity. }
    destruct (IH (after_cycle s i d)) as (outs & Hrun & Hnth);
      [lia | lia | exact Hrest |].
    cbn [cycles]. rewrite Hstep, Hrun. eexists. split; [reflexivity|].
    intros [|k] j o Hj Ho; cbn [nth_error] in Hj, Ho.
    + injection Hj as <-. injection Ho as <-. cbn [fst snd].
      rewrite Hc1, steps_cycle_events. split; [lia | reflexivity].
    + destruct (Hnth k j o Hj Ho) as [Hc Hs]. split; [lia | exact Hs].
Qed.

Lemma total_auto_cons o outs :
  total_auto_dispenses (o :: outs) =
  (auto_dispenses (snd o) + total_auto_dispenses outs)%nat.
Proof. reflexivity. Qed.

(** Once the counter has reached the dispense threshold, no later cycle of
    the same run of near samples dispenses. *)
Lemma near_run_past_threshold ins :
  forall s outs,
    Threshold <= currThreshold s ->
    forallb is_near ins = true ->
    cycles s ins = Some outs ->
    total_auto_dispenses outs = 0%nat.
Proof.
  induction ins as [|i ins IH]; intros s outs Hc Hnear Hrun; cbn [cycles] in Hrun.
  - injection Hrun as <-. reflexivity.
  - cbn [forallb] in Hnear. apply andb_prop in Hnear as [Hi Hrest].
    destruct (cycle s i) as [[s1 t]|] eqn:Hstep; [|discriminate].
    destruct (cycles s1 ins) as [outs1|] eqn:Hrun1; [|discriminate].
    injection Hrun as <-.
    destruct (cycle_inv _ _ _ _ Hstep) as (d & Hd & Hs1 & Ht & _).
    assert (Hc1 : currThreshold s1 = currThreshold s + 1).
    { subst s1. cbn [after_cycle currThreshold]. unfold next_count.
      unfold is_near in Hi. rewrite Hd in Hi. unfold near, NEAR_LIMIT in Hi.
      rewrite Hi. reflexivity. }
    rewrite total_auto_cons, (IH s1 outs1) by (auto; lia).
    rewrite Nat.add_0_r. cbn [snd].
    unfold auto_dispenses. rewrite Ht, steps_cycle_events, auto_dispenses_steps.
    replace (currThreshold s1 =? Threshold) with false; [reflexivity|].
    symmetry. apply Z.eqb_neq. lia.
Qed.

(* ================================================================= *)
(** ** The two motions of the stepper *)

Lemma duration_app t1 t2 :
  duration_us (t1 ++ t2) = duration_us t1 + duration_us t2.
Proof.
  unfold duration_us. induction t1 as [|e t1 IH]; cbn [app fold_right]; lia.
Qed.

Lemma duration_repeat evs n :
  duration_us (concat (repeat evs n)) = Z.of_nat n * duration_us evs.
Proof.
  induction n as [|n IH]; cbn [repeat concat].
  - reflexivity.
  - rewrite duration_app, IH. lia.
Qed.

Lemma pulses_app t1 t2 : pulses (t1 ++ t2) = pulses t1 + pulses t2.
Proof.
  unfold pulses. induction t1 as [|e t1 IH]; cbn [app fold_right]; lia.
Qed.

Lemma pulses_repeat evs n :
  pulses (concat (repeat evs n)) = Z.of_nat n * pulses evs.
Proof.
  induction n as [|n IH]; cbn [repeat concat].
  - reflexivity.
  - rewrite pulses_app, IH. lia.
Qed.

Lemma duration_call f body : duration_us [Call f body] = duration_us body.
Proof. unfold duration_us. cbn [fold_right event_us]. lia. Qed.

Lemma pulses_call f body : pulses [Call f body] = pulses body.
Proof. unfold pulses. cbn [fold_right event_pulses]. lia. Qed.

Lemma motion_rotateStepper t :
  motion (rotateStepper t) =
  if in_int (stepsPerRevolution t * rotateTurns t)
  then Some [Call F_rotateStepper (rotate_events t)]
  else None.
Proof.
  unfold motion. rewrite rotateStepper_run.
  destruct (in_int (stepsPerRevolution t * rotateTurns t)); reflexivity.
Qed.

Lemma motion_retractStepper t :
  motion (retractStepper t) = Some [Call F_retractStepper (retract_events t)].
Proof. unfold motion. rewrite retractStepper_run. reflexivity. Qed.

Lemma duration_rotate_events t :
  duration_us (rotate_events t) =
  Z.max 0 (stepsPerRevolution t * rotateTurns t) *
  (rotatePulse t + rotateInterval t).
Proof.
  unfold rotate_events.
  change (DigitalWrite dirPin LOW :: ?l) with ([DigitalWrite dirPin LOW] ++ l).
  rewrite duration_app, duration_repeat.
  unfold duration_us, step_pulse. cbn [fold_right event_us]. lia.
Qed.

Lemma duration_retract_events t :
  duration_us (retract_events t) =
  Z.max 0 (stepsPerRevolution t) * (retractPulse t + retractInterval t).
Proof.
  unfold retract_events.
  change (DigitalWrite dirPin HIGH :: ?l) with ([DigitalWrite dirPin HIGH] ++ l).
  rewrite duration_app, duration_repeat.
  unfold duration_us, step_pulse. cbn [fold_right event_us]. lia.
Qed.

Lemma pulses_rotate_events t :
  pulses (rotate_events t) = Z.max 0 (stepsPerRevolution t * rotateTurns t).
Proof.
  unfold rotate_events.
  change (DigitalWrite dirPin LOW :: ?l) with ([DigitalWrite dirPin LOW] ++ l).
  rewrite pulses_app, pulses_repeat.
  unfold pulses, step_pulse. cbn. lia.
Qed.

Lemma pulses_retract_events t :
  pulses (retract_events t) = Z.max 0 (stepsPerRevolution t).
Proof.
  unfold retract_events.
  change (DigitalWrite dirPin HIGH :: ?l) with ([DigitalWrite dirPin HIGH] ++ l).
  rewrite pulses_app, pulses_repeat.
  unfold pulses, step_pulse. cbn. lia.
Qed.

(* ================================================================= *)
(** ** Runs of near samples in a history *)

Lemma cycles_cons_inv s i ins outs :
  cycles s (i :: ins) = Some outs ->
  exists s1 t outs1,
    cycle s i = Some (s1, t) /\ cycles s1 ins = Some outs1 /\
    outs = (s1, t) :: outs1.
Proof.
  cbn [cycles]. intros H.
  destruct (cycle s i) as [[s1 t]|]; [|discriminate].
  destruct (cycles s1 ins) as [outs1|] eqn:E; [|discriminate].
  injection H as <-. exists s1, t, outs1. auto.
Qed.

(** A near cycle from a known counter. *)
Lemma near_cycle s i s1 t :
  is_near i = true ->
  cycle s i = Some (s1, t) ->
  currThreshold s1 = currThreshold s + 1 /\
  steps t = cycle_steps (button i) (currThreshold s1).
Proof.
  intros Hi Hstep.
  destruct (cycle_inv _ _ _ _ Hstep) as (d & Hd & Hs1 & Ht & _).
  split.
  - subst s1. cbn [after_cycle currThreshold]. unfold next_count.
    unfold is_near in Hi. rewrite Hd in Hi. unfold near, NEAR_LIMIT in Hi.
    rewrite Hi. reflexivity.
  - rewrite Ht at 1. apply steps_cycle_events.
Qed.

(** In a run of near samples that starts with the counter at zero, only
    the second cycle can dispense, and it does unless the button is held. *)
Lemma near_run_total s ins outs :
  currThreshold s = 0 ->
  forallb is_near ins = true ->
  cycles s ins = Some outs ->
  total_auto_dispenses outs =
  match nth_error ins 1 with
  | Some i => if button i then 0%nat else 1%nat
  | None => 0%nat
  end.
Proof.
  intros Hc Hnear Hrun.
  destruct ins as [|i1 ins].
  { injection Hrun as <-. reflexivity. }
  cbn [forallb] in Hnear. apply andb_prop in Hnear as [Hn1 Hnear].
  apply cycles_cons_inv in Hrun as (s1 & t1 & outs1 & Hc1 & Hrun & ->).
  destruct (near_cycle _ _ _ _ Hn1 Hc1) as [Hs1 Ht1].
  rewrite total_auto_cons. cbn [snd nth_error].
  unfold auto_dispenses at 1. rewrite Ht1, auto_dispenses_steps.
  replace (currThreshold s1 =? Threshold) with false
    by (symmetry; apply Z.eqb_neq; unfold Threshold; lia).
  cbn [andb Nat.add].
  destruct ins as [|i2 ins].
  { injection Hrun as <-. reflexivity. }
  cbn [forallb] in Hnear. apply andb_prop in Hnear as [Hn2 Hnear].
  apply cycles_cons_inv in Hrun as (s2 & t2 & outs2 & Hc2 & Hrun & ->).
  destruct (near_cycle _ _ _ _ Hn2 Hc2) as [Hs2 Ht2].
  rewrite total_auto_cons. cbn [snd nth_error].
  rewrite (near_run_past_threshold ins s2 outs2)
    by (auto; unfold Threshold; lia).
  unfold auto_dispenses. rewrite Ht2, auto_dispenses_steps.
  replace (currThreshold s2 =? Threshold) with true
    by (symmetry; apply Z.eqb_eq; unfold Threshold; lia).
  destruct (button i2); reflexivity.
Qed.

Lemma total_auto_zero outs :
  total_auto_dispenses outs = 0%nat ->
  Forall (fun o => auto_dispenses (snd o) = 0%nat) outs.
Proof.
  induction outs as [|o outs IH]; intros H; constructor;
    rewrite total_auto_cons in H.
  - lia.
  - apply IH. lia.
Qed.

(** The cycles of a run of near samples that follows a history ending
    outside any run. *)
Lemma run_after_history pre run pre_ds :
  map reading pre = map Some pre_ds ->
  within_int pre_ds ->
  run_length pre_ds = 0%nat ->
  forallb is_near run = true ->
  Z.of_nat (List.length run) <= INT_MAX ->
  exists outs_pre outs,
    cycles power_on (pre ++ run) = Some (outs_pre ++ outs) /\
    List.length outs_pre = List.length pre /\
    currThreshold (final power_on outs_pre) = 0 /\
    cycles (final power_on outs_pre) run = Some outs.
Proof.
  intros Hs Hb H0 Hnear Hlen.
  destruct (counter_tracks_run pre pre_ds Hs Hb) as (outs_pre & Hpre & Hfin & _).
  rewrite H0 in Hfin. cbn in Hfin.
  destruct (near_run run (final power_on outs_pre)) as (outs & Hrun & _);
    [lia | lia | exact Hnear |].
  exists outs_pre, outs. rewrite cycles_app, Hpre, Hrun.
  repeat split; auto. eapply cycles_length; eauto.
Qed.

(* ================================================================= *)
(** ** The detection filter *)

(** C2.  For every sequence of distance samples read from power-on in
    which no run of near samples outgrows an [int], every cycle has a
    result, and the counter after cycle [n] is the length of the longest
    suffix of near samples among the first [n]: one more on each near
    sample, with no clamp, and zero after a sample that is not near. *)
Theorem counter_is_run_length :
  forall (ins : list input) (ds : list Z),
    map reading ins = map Some ds ->
    within_int ds ->
    exists outs,
      cycles power_on ins = Some outs /\
      counters outs =
        map (fun n => Z.of_nat (run_length (firstn n ds)))
            (seq 1 (List.length ds)) /\
      currThreshold (final power_on outs) = Z.of_nat (run_length ds) /\
      (forall s i d s1 t,
          reading i = Some d ->
          cycle s i = Some (s1, t) ->
          currThreshold s1 = if near d then currThreshold s + 1 else 0).
Proof.
  intros ins ds Hs Hb.
  destruct (counter_tracks_run ins ds Hs Hb) as (outs & Hrun & Hfin & Hcs).
  exists outs. repeat split; auto.
  intros s i d s1 t Hd Hstep.
  destruct (cycle_inv _ _ _ _ Hstep) as (d' & Hd' & -> & _).
  rewrite Hd in Hd'. injection Hd' as <-. reflexivity.
Qed.

Lemma counter_is_run_length_witness :
  exists outs,
    cycles power_on
      [mkInput false 2100; mkInput false 2100; mkInput false 1200;
       mkInput true 1200; mkInput false 2100] = Some outs /\
    counters outs = [0; 0; 1; 2; 0].
Proof.
  destruct (counter_is_run_length
              [mkInput false 2100; mkInput false 2100; mkInput false 1200;
               mkInput true 1200; mkInput false 2100]
              [35; 35; 20; 20; 35])
    as (outs & Hrun & Hcs & _).
  - vm_compute. reflexivity.
  - apply within_int_short. vm_compute. discriminate.
  - exists outs. split; [exact Hrun | exact Hcs].
Defined.

(* ================================================================= *)
(** ** The automatic dispense *)

(** C1.  In every run of near samples that begins at power-on or after a
    sample that is not near, and is at least [DispenseThreshold] long, the
    counter of the [k]-th cycle is [k], and the automatic dispense
    (pre-beep, dispense motion, short pause, retract motion, pause, two
    confirmation beeps) happens in a cycle exactly when the counter equals
    [DispenseThreshold] there and the button is not held.  That is one
    cycle of the run: with the button released in it the run dispenses
    exactly once, and no other cycle of the run dispenses. *)
Theorem automatic_dispense_once_per_run :
  forall (pre run : list input) (pre_ds : list Z),
    map reading pre = map Some pre_ds ->
    within_int pre_ds ->
    run_length pre_ds = 0%nat ->
    forallb is_near run = true ->
    DispenseThreshold <= Z.of_nat (List.length run) <= INT_MAX ->
    exists outs_pre outs,
      cycles power_on (pre ++ run) = Some (outs_pre ++ outs) /\
      List.length outs_pre = List.length pre /\
      (forall k i o,
          nth_error run k = Some i ->
          nth_error outs k = Some o ->
          currThreshold (fst o) = Z.of_nat (S k) /\
          auto_dispenses (snd o) =
            if (currThreshold (fst o) =? DispenseThreshold) && negb (button i)
            then 1%nat else 0%nat) /\
      (exists i,
          nth_error run (Z.to_nat DispenseThreshold - 1) = Some i /\
          total_auto_dispenses outs = if button i then 0%nat else 1%nat).
Proof.
  intros pre run pre_ds Hs Hb H0 Hnear [Hmin Hmax].
  destruct (run_after_history pre run pre_ds Hs Hb H0 Hnear Hmax)
    as (outs_pre & outs & Hall & Hlen & Hzero & Hrun).
  exists outs_pre, outs.
  split; [exact Hall|]. split; [exact Hlen|]. split.
  - intros k i o Hi Ho.
    destruct (near_run run (final power_on outs_pre)) as (outs' & Hrun' & Hnth);
      [lia | lia | exact Hnear |].
    rewrite Hrun in Hrun'. injection Hrun' as <-.
    destruct (Hnth k i o Hi Ho) as [Hc Hst]. split; [lia|].
    unfold auto_dispenses. rewrite Hst. apply auto_dispenses_steps.
  - change (Z.to_nat DispenseThreshold - 1)%nat with 1%nat.
    destruct (nth_error run 1) as [i|] eqn:Hi.
    + exists i. split; [reflexivity|].
      rewrite (near_run_total _ _ _ Hzero Hnear Hrun), Hi. reflexivity.
    + apply nth_error_None in Hi.
      unfold DispenseThreshold, Threshold in Hmin. lia.
Qed.

Lemma automatic_dispense_once_per_run_witness :
  exists outs_pre outs,
    cycles power_on
      ([mkInput false 2100] ++
       [mkInput true 1200; mkInput false 0; mkInput false 1200]) =
      Some (outs_pre ++ outs) /\
    total_auto_dispenses outs = 1%nat.
Proof.
  destruct (automatic_dispense_once_per_run
              [mkInput false 2100]
              [mkInput true 1200; mkInput false 0; mkInput false 1200]
              [35])
    as (outs_pre & outs & Hrun & _ & _ & i & Hi & Honce).
  - vm_compute. reflexivity.
  - apply within_int_short. vm_compute. discriminate.
  - vm_compute. reflexivity.
  - vm_compute. reflexivity.
  - split; vm_compute; discriminate.
  - exists outs_pre, outs. split; [exact Hrun|].
    injection Hi as <-. exact Honce.
Defined.

(** C9.  When the button is held in the cycle of a run of near samples in
    which the counter equals [DispenseThreshold], no cycle of that run
    dispenses automatically, whatever the button does in the other cycles
    of the run. *)
Theorem held_at_threshold_never_dispenses :
  forall (pre run : list input) (pre_ds : list Z) (i : input),
    map reading pre = map Some pre_ds ->
    within_int pre_ds ->
    run_length pre_ds = 0%nat ->
    forallb is_near run = true ->
    Z.of_nat (List.length run) <= INT_MAX ->
    nth_error run (Z.to_nat DispenseThreshold - 1) = Some i ->
    button i = true ->
    exists outs_pre outs,
      cycles power_on (pre ++ run) = Some (outs_pre ++ outs) /\
      List.length outs_pre = List.length pre /\
      List.length outs = List.length run /\
      total_auto_dispenses outs = 0%nat /\
      Forall (fun o => auto_dispenses (snd o) = 0%nat) outs.
Proof.
  intros pre run pre_ds i Hs Hb H0 Hnear Hmax Hi Hbtn.
  destruct (run_after_history pre run pre_ds Hs Hb H0 Hnear Hmax)
    as (outs_pre & outs & Hall & Hlen & Hzero & Hrun).
  assert (Htotal : total_auto_dispenses outs = 0%nat).
  { rewrite (near_run_total _ _ _ Hzero Hnear Hrun).
    change (Z.to_nat DispenseThreshold - 1)%nat with 1%nat in Hi.
    rewrite Hi, Hbtn. reflexivity. }
  exists outs_pre, outs. repeat split; auto.
  - eapply cycles_length; eauto.
  - apply total_auto_zero, Htotal.
Qed.

Lemma held_at_threshold_never_dispenses_witness :
  exists outs_pre outs,
    cycles power_on
      ([mkInput false 2100] ++
       [mkInput false 1200; mkInput true 1200; mkInput false 1200;
        mkInput false 1200; mkInput false 1200]) =
      Some (outs_pre ++ outs) /\
    List.length outs = 5%nat /\
    total_auto_dispenses outs = 0%nat.
Proof.
  destruct (held_at_threshold_never_dispenses
              [mkInput false 2100]
              [mkInput false 1200; mkInput true 1200; mkInput false 1200;
               mkInput false 1200; mkInput false 1200]
              [35] (mkInput true 1200))
    as (outs_pre & outs & Hrun & _ & Hlen & Htotal & _).
  - vm_compute. reflexivity.
  - apply within_int_short. vm_compute. discriminate.
  - vm_compute. reflexivity.
  - vm_compute. reflexivity.
  - vm_compute. discriminate.
  - reflexivity.
  - reflexivity.
  - exists outs_pre, outs. repeat split; assumption.
Defined.

(* ================================================================= *)
(** ** The manual override *)

(** The claim of C3 as it is written fails on the cycle below: the button
    is held in all four cycles, and the fourth one, with the counter at 4,
    sounds the block warning after the manual dispense motion. *)
Lemma manual_cycle_still_warns :
  exists outs,
    cycles power_on
      [mkInput true 1200; mkInput true 1200; mkInput true 1200;
       mkInput true 1200] = Some outs /\
    counters outs = [1; 2; 3; 4] /\
    map (fun o => actuations (snd o)) outs =
      [ [F_rotateStepper]; [F_rotateStepper]; [F_rotateStepper];
        [F_rotateStepper; F_beep 500 1000] ] /\
    map (fun o => block_warnings (snd o)) outs = [0; 0; 0; 1]%nat.
Proof.
  eexists. split; [vm_compute; reflexivity|].
  repeat split; vm_compute; reflexivity.
Qed.

(** C3, amended.  In every cycle in which the button is held the automatic
    dispense does not happen, whatever the counter: the cycle makes the
    manual dispense motion, no retract and none of the dispense beeps.
    The sensor is still read and the counter updated, and the block
    warning still sounds when the updated counter exceeds
    [BlockWarningThreshold]. *)
Theorem manual_cycle_actuations :
  forall (s : state) (i : input) (s1 : state) (t : trace),
    button i = true ->
    cycle s i = Some (s1, t) ->
    buttonIsActive s1 = true /\
    auto_dispenses t = 0%nat /\
    actuations t =
      F_rotateStepper ::
      (if currThreshold s1 >? BlockWarningThreshold
       then [F_beep 500 1000] else []) /\
    block_warnings t =
      (if currThreshold s1 >? BlockWarningThreshold then 1%nat else 0%nat).
Proof.
  intros s i s1 t Hbtn Hstep.
  destruct (cycle_inv _ _ _ _ Hstep) as (d & Hd & Hs1 & Ht & _).
  assert (Hst : steps t = cycle_steps true (currThreshold s1)).
  { rewrite Ht at 1. rewrite steps_cycle_events, Hbtn. reflexivity. }
  repeat split.
  - subst s1. exact Hbtn.
  - unfold auto_dispenses. rewrite Hst, auto_dispenses_steps.
    rewrite andb_false_r. reflexivity.
  - unfold actuations. rewrite Hst, actuations_steps.
    rewrite andb_false_r. reflexivity.
  - unfold block_warnings. rewrite Hst. apply block_warnings_steps.
Qed.

Lemma manual_cycle_actuations_witness :
  exists s1 t,
    cycle (mkState 1 true 3) (mkInput true 1200) = Some (s1, t) /\
    auto_dispenses t = 0%nat /\
    actuations t = [F_rotateStepper; F_beep 500 1000].
Proof.
  destruct (cycle (mkState 1 true 3) (mkInput true 1200)) as [[s1 t]|] eqn:E;
    [|vm_compute in E; discriminate].
  exists s1, t.
  destruct (manual_cycle_actuations (mkState 1 true 3) (mkInput true 1200) s1 t)
    as (_ & Hauto & Hact & _).
  - reflexivity.
  - exact E.
  - split; [reflexivity|]. split; [exact Hauto|].
    rewrite Hact. vm_compute in E. injection E as <- _. reflexivity.
Defined.

(** The claim of C6 as it is written fails on the very first cycle after
    power-on: with the button held and a near sample the counter goes from
    0 to 1; and with the button held and a sample that is not near, a
    counter of 3 is reset to 0. *)
Lemma manual_cycle_moves_counter :
  (exists s1 t,
      cycle power_on (mkInput true 1200) = Some (s1, t) /\
      currThreshold power_on = 0 /\ currThreshold s1 = 1) /\
  (exists s1 t,
      cycle (mkState 1 true 3) (mkInput true 2100) = Some (s1, t) /\
      currThreshold s1 = 0).
Proof.
  split; eexists; eexists; (split; [vm_compute; reflexivity|]);
    repeat split; reflexivity.
Qed.

(** C6, amended.  The button has no part in the update of the counter: a
    cycle with the button held advances the counter by one on a near
    sample and resets it to zero on any other, exactly as the cycle on the
    same echo with the button released does. *)
Theorem manual_cycle_counter :
  forall (s : state) (i : input) (s1 : state) (t : trace),
    button i = true ->
    cycle s i = Some (s1, t) ->
    exists d,
      reading i = Some d /\
      currThreshold s1 = (if near d then currThreshold s + 1 else 0) /\
      exists s2 t2,
        cycle s (mkInput false (echo_us i)) = Some (s2, t2) /\
        currThreshold s2 = currThreshold s1.
Proof.
  intros s i s1 t Hbtn Hstep.
  destruct (cycle_inv _ _ _ _ Hstep) as (d & Hd & Hs1 & Ht & Hin).
  exists d. split; [exact Hd|]. split; [subst s1; reflexivity|].
  eexists. eexists. split.
  - apply (cycle_defined s (mkInput false (echo_us i)) d); [exact Hd | exact Hin].
  - subst s1. reflexivity.
Qed.

Lemma manual_cycle_counter_witness :
  exists s1 t d,
    cycle power_on (mkInput true 1200) = Some (s1, t) /\
    reading (mkInput true 1200) = Some d /\
    currThreshold s1 = (if near d then currThreshold power_on + 1 else 0).
Proof.
  destruct (cycle power_on (mkInput true 1200)) as [[s1 t]|] eqn:E;
    [|vm_compute in E; discriminate].
  destruct (manual_cycle_counter power_on (mkInput true 1200) s1 t)
    as (d & Hd & Hc & _).
  - reflexivity.
  - exact E.
  - exists s1, t, d. repeat split; assumption.
Defined.

(* ================================================================= *)
(** ** The block warning *)

(** C4.  A cycle sounds the block warning, one beep of 500 Hz for a
    second, exactly when its counter exceeds [BlockWarningThreshold]:
    once in every such cycle, with no automatic dispense in that cycle,
    and not at all in a cycle whose sample is not near, which leaves the
    counter at zero.  In a run of near samples that starts from a zero
    counter this is every cycle from the fourth on. *)
Theorem block_warning_level_triggered :
  (forall (s : state) (i : input) (s1 : state) (t : trace),
      cycle s i = Some (s1, t) ->
      block_warnings t =
        (if currThreshold s1 >? BlockWarningThreshold then 1%nat else 0%nat) /\
      (currThreshold s1 > BlockWarningThreshold ->
       auto_dispenses t = 0%nat /\ In (F_beep 500 1000) (actuations t)) /\
      (is_near i = false ->
       currThreshold s1 = 0 /\ block_warnings t = 0%nat)) /\
  (forall (s : state) (run : list input),
      currThreshold s = 0 ->
      forallb is_near run = true ->
      Z.of_nat (List.length run) <= INT_MAX ->
      exists outs,
        cycles s run = Some outs /\
        forall k o,
          nth_error outs k = Some o ->
          block_warnings (snd o) =
            (if Z.of_nat (S k) >? BlockWarningThreshold then 1%nat else 0%nat)).
Proof.
  split.
  - intros s i s1 t Hstep.
    destruct (cycle_inv _ _ _ _ Hstep) as (d & Hd & Hs1 & Ht & _).
    assert (Hst : steps t = cycle_steps (button i) (currThreshold s1)).
    { rewrite Ht at 1. apply steps_cycle_events. }
    assert (Hw : block_warnings t =
                 (if currThreshold s1 >? BlockWarningThreshold
                  then 1%nat else 0%nat)).
    { unfold block_warnings. rewrite Hst. apply block_warnings_steps. }
    split; [exact Hw|]. split.
    + intros Hgt. unfold BlockWarningThreshold in Hgt. split.
      * unfold auto_dispenses. rewrite Hst, auto_dispenses_steps.
        replace (currThreshold s1 =? Threshold) with false; [reflexivity|].
        symmetry. apply Z.eqb_neq. unfold Threshold. lia.
      * unfold actuations. rewrite Hst, actuations_steps.
        replace (currThreshold s1 >? 3) with true
          by (symmetry; apply Z.gtb_lt; lia).
        apply in_or_app. right. apply in_or_app. right. left. reflexivity.
    + intros Hfar. unfold is_near in Hfar. rewrite Hd in Hfar.
      assert (Hc : currThreshold s1 = 0).
      { subst s1. cbn [after_cycle currThreshold]. unfold next_count.
        unfold near, NEAR_LIMIT in Hfar. rewrite Hfar. reflexivity. }
      split; [exact Hc|]. rewrite Hw, Hc. reflexivity.
  - intros s run Hzero Hnear Hmax.
    destruct (near_run run s) as (outs & Hrun & Hnth); [lia | lia | exact Hnear |].
    exists outs. split; [exact Hrun|].
    intros k o Ho.
    assert (Hk : (k < List.length run)%nat).
    { rewrite <- (cycles_length _ _ _ Hrun). apply nth_error_Some. congruence. }
    destruct (nth_error run k) as [i|] eqn:Hi;
      [|apply nth_error_None in Hi; lia].
    destruct (Hnth k i o Hi Ho) as [Hc Hst].
    unfold block_warnings. rewrite Hst, block_warnings_steps, Hc, Hzero.
    reflexivity.
Qed.

Lemma block_warning_level_triggered_witness :
  exists outs,
    cycles power_on (repeat (mkInput false 1200) 6) = Some outs /\
    forall k o,
      nth_error outs k = Some o ->
      block_warnings (snd o) =
        (if Z.of_nat (S k) >? BlockWarningThreshold then 1%nat else 0%nat).
Proof.
  apply (proj2 block_warning_level_triggered power_on
               (repeat (mkInput false 1200) 6)).
  - reflexivity.
  - vm_compute. reflexivity.
  - vm_compute. discriminate.
Defined.

(** C10.  No cycle both dispenses automatically and sounds the block
    warning: with the thresholds of the sketch the two conditions on the
    counter exclude each other. *)
Theorem dispense_and_warning_exclusive :
  (forall c : Z,
      (c =? DispenseThreshold) && (c >? BlockWarningThreshold) = false) /\
  (forall (s : state) (i : input) (s1 : state) (t : trace),
      cycle s i = Some (s1, t) ->
      auto_dispenses t = 0%nat \/ block_warnings t = 0%nat).
Proof.
  assert (Hex : forall c : Z,
             (c =? DispenseThreshold) && (c >? BlockWarningThreshold) = false).
  { intros c. unfold DispenseThreshold, Threshold, BlockWarningThreshold.
    destruct (Z.eqb_spec c 2) as [->|Hne]; reflexivity. }
  split; [exact Hex|].
  intros s i s1 t Hstep.
  destruct (cycle_inv _ _ _ _ Hstep) as (d & Hd & Hs1 & Ht & _).
  assert (Hst : steps t = cycle_steps (button i) (currThreshold s1)).
  { rewrite Ht at 1. apply steps_cycle_events. }
  unfold auto_dispenses, block_warnings.
  rewrite Hst, auto_dispenses_steps, block_warnings_steps.
  specialize (Hex (currThreshold s1)).
  unfold DispenseThreshold, BlockWarningThreshold in Hex.
  destruct (currThreshold s1 =? Threshold), (currThreshold s1 >? 3);
    try discriminate; auto.
Qed.

Lemma dispense_and_warning_exclusive_witness :
  exists s1 t,
    cycle (mkState 0 false 1) (mkInput false 1200) = Some (s1, t) /\
    auto_dispenses t = 1%nat /\ block_warnings t = 0%nat.
Proof.
  destruct (cycle (mkState 0 false 1) (mkInput false 1200)) as [[s1 t]|] eqn:E;
    [|vm_compute in E; discriminate].
  exists s1, t. split; [reflexivity|].
  destruct (proj2 dispense_and_warning_exclusive _ _ _ _ E) as [H|H].
  - vm_compute in E. injection E as _ <-. vm_compute in H. discriminate.
  - vm_compute in E. injection E as _ <-. split; [reflexivity | exact H].
Defined.

(* ================================================================= *)
(** ** The sensor read without an echo *)

(** C5.  A sensor read without an echo ([pulseIn] returns 0) gives the
    distance 0, which is a near sample: the cycle advances the counter by
    one, dispenses when that reaches [DispenseThreshold] with the button
    released, and ends in the same state after the same steps as a cycle
    on any other near reading with the same button level. *)
Theorem no_echo_counts_as_near :
  forall (s : state) (i : input),
    echo_us i = 0 ->
    in_int (currThreshold s + 1) = true ->
    reading i = Some 0 /\
    near 0 = true /\
    exists s1 t,
      cycle s i = Some (s1, t) /\
      currThreshold s1 = currThreshold s + 1 /\
      (currThreshold s1 = DispenseThreshold -> button i = false ->
       auto_dispenses t = 1%nat) /\
      (forall j d,
          button j = button i -> reading j = Some d -> near d = true ->
          exists t', cycle s j = Some (s1, t') /\ steps t' = steps t).
Proof.
  intros s i Hecho Hin.
  assert (Hd : reading i = Some 0).
  { unfold reading. rewrite Hecho. vm_compute. reflexivity. }
  split; [exact Hd|]. split; [reflexivity|].
  eexists. eexists. split.
  { apply (cycle_defined s i 0 Hd). intros _. exact Hin. }
  change (next_count (currThreshold s) 0) with (currThreshold s + 1).
  split; [reflexivity|]. split.
  - cbn [after_cycle currThreshold]. intros Hc Hbtn.
    unfold auto_dispenses. rewrite steps_cycle_events, auto_dispenses_steps.
    change (next_count (currThreshold s) 0) with (currThreshold s + 1) in Hc.
    rewrite Hc, Hbtn. reflexivity.
  - intros j d Hbtn Hdj Hnear. eexists. split.
    + rewrite (cycle_defined s j d Hdj (fun _ => Hin)).
      unfold after_cycle, next_count. unfold near, NEAR_LIMIT in Hnear.
      rewrite Hnear, Hbtn. reflexivity.
    + rewrite !steps_cycle_events. reflexivity.
Qed.

Lemma no_echo_counts_as_near_witness :
  exists s1 t,
    cycle (mkState 0 false 1) (mkInput false 0) = Some (s1, t) /\
    currThreshold s1 = 2 /\
    auto_dispenses t = 1%nat.
Proof.
  destruct (no_echo_counts_as_near (mkState 0 false 1) (mkInput false 0))
    as (_ & _ & s1 & t & Hstep & Hc & Hauto & _).
  - reflexivity.
  - reflexivity.
  - exists s1, t. split; [exact Hstep|]. split; [exact Hc|].
    apply Hauto; [exact Hc | reflexivity].
Defined.

(* ================================================================= *)
(** ** Scenario B *)

(** C7.  On five samples of distance 20 with the button never held, read
    from power-on, the counter takes the values 1, 2, 3, 4, 5, the
    automatic dispense happens once, in the second cycle, and the block
    warning sounds in the fourth and the fifth cycle and in no other. *)
Theorem scenario_B :
  forall ins : list input,
    map reading ins = [Some 20; Some 20; Some 20; Some 20; Some 20] ->
    map button ins = [false; false; false; false; false] ->
    NEAR_LIMIT = 30 /\ DispenseThreshold = 2 /\ BlockWarningThreshold = 3 /\
    exists outs,
      cycles power_on ins = Some outs /\
      counters outs = [1; 2; 3; 4; 5] /\
      map (fun o => auto_dispenses (snd o)) outs = [0; 1; 0; 0; 0]%nat /\
      map (fun o => block_warnings (snd o)) outs = [0; 0; 0; 1; 1]%nat /\
      map (fun o => actuations (snd o)) outs =
        [ [];
          [F_beep 1000 500; F_rotateStepper; F_retractStepper;
           F_beep 3000 80; F_beep 3000 80];
          [];
          [F_beep 500 1000];
          [F_beep 500 1000] ].
Proof.
  intros ins Hd Hb.
  repeat (split; [reflexivity|]).
  destruct ins as [|i1 [|i2 [|i3 [|i4 [|i5 [|i6 ins]]]]]]; try discriminate Hd.
  cbn [map] in Hd, Hb.
  injection Hd as Hd1 Hd2 Hd3 Hd4 Hd5.
  injection Hb as Hb1 Hb2 Hb3 Hb4 Hb5.
  cbn [cycles].
  rewrite (cycle_defined power_on i1 20 Hd1) by reflexivity.
  rewrite (cycle_defined _ i2 20 Hd2) by reflexivity.
  rewrite (cycle_defined _ i3 20 Hd3) by reflexivity.
  rewrite (cycle_defined _ i4 20 Hd4) by reflexivity.
  rewrite (cycle_defined _ i5 20 Hd5) by reflexivity.
  eexists. split; [reflexivity|].
  unfold counters, auto_dispenses, block_warnings, actuations.
  cbn [map fst snd]. rewrite !steps_cycle_events.
  rewrite !auto_dispenses_steps, !block_warnings_steps, !actuations_steps.
  rewrite Hb1, Hb2, Hb3, Hb4, Hb5.
  repeat split; reflexivity.
Qed.

Lemma scenario_B_witness :
  exists outs,
    cycles power_on (repeat (mkInput false 1200) 5) = Some outs /\
    counters outs = [1; 2; 3; 4; 5] /\
    map (fun o => auto_dispenses (snd o)) outs = [0; 1; 0; 0; 0]%nat /\
    map (fun o => block_warnings (snd o)) outs = [0; 0; 0; 1; 1]%nat.
Proof.
  destruct (scenario_B (repeat (mkInput false 1200) 5))
    as (_ & _ & _ & outs & Hrun & Hcs & Hauto & Hwarn & _).
  - vm_compute. reflexivity.
  - reflexivity.
  - exists outs. repeat split; assumption.
Defined.

(* ================================================================= *)
(** ** Dispense motion and retract motion *)

(** The claim of C8 as it is written fails when the length of the dispense
    motion is changed through [stepsPerRevolution], the constant that the
    sketch names as the unit of one dispense action: halving it halves the
    dispense motion and the retract motion alike, though nothing else of
    the sketch, and nothing of [retractStepper], is touched. *)
Lemma retract_follows_stepsPerRevolution :
  retractPulse half_portion = retractPulse sketch /\
  retractInterval half_portion = retractInterval sketch /\
  option_map pulses (motion (rotateStepper sketch)) = Some 200 /\
  option_map pulses (motion (rotateStepper half_portion)) = Some 100 /\
  option_map pulses (motion (retractStepper sketch)) = Some 100 /\
  option_map pulses (motion (retractStepper half_portion)) = Some 50 /\
  option_map duration_us (motion (retractStepper sketch)) = Some 1000000 /\
  option_map duration_us (motion (retractStepper half_portion)) = Some 500000.
Proof.
  repeat split; vm_compute; reflexivity.
Qed.

(** C8, amended.  With the step timing of the sketch the retract motion
    lasts exactly half as long as the dispense motion, and makes half as
    many steps, whatever [stepsPerRevolution] is: both motions are sized
    by that one constant.  The retract motion depends on nothing else
    that sizes the dispense motion: two tunings that agree on
    [stepsPerRevolution] and on the two delays of [retractStepper] retract
    alike, whatever the loop factor and the delays of [rotateStepper]. *)
Theorem retract_half_of_dispense :
  (forall n : Z,
      0 <= n -> in_int (n * 2) = true ->
      exists td tr,
        motion (rotateStepper (with_stepsPerRevolution n sketch)) = Some td /\
        motion (retractStepper (with_stepsPerRevolution n sketch)) = Some tr /\
        duration_us td = 2 * duration_us tr /\
        pulses td = 2 * pulses tr /\
        pulses tr = n /\
        duration_us tr = n * 10000) /\
  (forall t1 t2 : tuning,
      stepsPerRevolution t1 = stepsPerRevolution t2 ->
      retractPulse t1 = retractPulse t2 ->
      retractInterval t1 = retractInterval t2 ->
      motion (retractStepper t1) = motion (retractStepper t2)).
Proof.
  split.
  - intros n Hn Hin.
    exists [Call F_rotateStepper (rotate_events (with_stepsPerRevolution n sketch))],
           [Call F_retractStepper (retract_events (with_stepsPerRevolution n sketch))].
    split.
    { rewrite motion_rotateStepper.
      cbn [with_stepsPerRevolution stepsPerRevolution rotateTurns sketch].
      rewrite Hin. reflexivity. }
    split; [apply motion_retractStepper|].
    rewrite !duration_call, !pulses_call.
    rewrite duration_rotate_events, duration_retract_events.
    rewrite pulses_rotate_events, pulses_retract_events.
    cbn [with_stepsPerRevolution stepsPerRevolution rotateTurns rotatePulse
         rotateInterval retractPulse retractInterval sketch].
    repeat split; lia.
  - intros t1 t2 Hn Hp Hi. rewrite !motion_retractStepper.
    unfold retract_events. rewrite Hn, Hp, Hi. reflexivity.
Qed.

Lemma retract_half_of_dispense_witness :
  exists td tr,
    motion (rotateStepper (with_stepsPerRevolution 100 sketch)) = Some td /\
    motion (retractStepper (with_stepsPerRevolution 100 sketch)) = Some tr /\
    duration_us td = 2 * duration_us tr /\
    duration_us tr = 1000000.
Proof.
  destruct (proj1 retract_half_of_dispense 100)
    as (td & tr & Hd & Hr & Hhalf & _ & _ & Hdur).
  - lia.
  - reflexivity.
  - exists td, tr. repeat split; assumption.
Defined.

(* ================================================================= *)
(** ** What the globals carry from one cycle to the next *)

Lemma cycles_nth s ins :
  forall outs k i o,
    cycles s ins = Some outs ->
    nth_error ins k = Some i ->
    nth_error outs k = Some o ->
    exists s0, cycle s0 i = Some o.
Proof.
  revert s. induction ins as [|i1 ins IH]; intros s outs k i o Hrun Hi Ho.
  - destruct k; discriminate Hi.
  - apply cycles_cons_inv in Hrun as (s1 & t1 & outs1 & Hc1 & Hrun & ->).
    destruct k as [|k]; cbn [nth_error] in Hi, Ho.
    + injection Hi as <-. injection Ho as <-. eauto.
    + eapply IH; eauto.
Qed.

(** Of the three globals only the counter is read before it is written:
    two states with the same counter give the same cycle, and on a sample
    that is not near the cycle does not depend on the state at all. *)
Theorem cycle_memory_is_counter :
  forall (s s' : state) (i : input),
    currThreshold s = currThreshold s' \/ is_near i = false ->
    cycle s i = cycle s' i.
Proof.
  intros s s' i H. destruct (reading i) as [d|] eqn:Hd.
  - rewrite (cycle_run s i d Hd), (cycle_run s' i d Hd).
    unfold after_cycle, next_count. destruct H as [Hc|Hfar].
    + rewrite Hc. reflexivity.
    + unfold is_near in Hfar. rewrite Hd in Hfar.
      unfold near, NEAR_LIMIT in Hfar. rewrite Hfar. reflexivity.
  - rewrite !(cycle_undefined _ i Hd). reflexivity.
Qed.

Lemma cycle_memory_is_counter_witness :
  cycle (mkState 1 true 7) (mkInput false 2100) =
  cycle power_on (mkInput false 2100).
Proof.
  apply cycle_memory_is_counter. right. vm_compute. reflexivity.
Defined.

(** In every state the sketch reaches from power-on the counter lies
    between 0 and the largest [int], [buttonState] is LOW or HIGH, and
    [buttonIsActive] tells whether it is HIGH. *)
Theorem reachable_invariant :
  forall s : state,
    reachable s ->
    0 <= currThreshold s <= INT_MAX /\
    (buttonState s = LOW \/ buttonState s = HIGH) /\
    buttonIsActive s = (buttonState s =? HIGH).
Proof.
  intros s Hr. induction Hr as [|s i s1 t Hr IH Hstep].
  - repeat split; try (vm_compute; discriminate); auto.
  - destruct IH as [[H0 Hmax] _].
    destruct (cycle_inv _ _ _ _ Hstep) as (d & Hd & -> & _ & Hin).
    cbn [after_cycle currThreshold buttonState buttonIsActive].
    unfold next_count. split; [|split].
    + destruct (d <? 30).
      * specialize (Hin eq_refl). unfold in_int in Hin.
        apply andb_prop in Hin as [_ Hle]. apply Z.leb_le in Hle. lia.
      * unfold INT_MAX. lia.
    + destruct (button i); [right | left]; reflexivity.
    + destruct (button i); reflexivity.
Qed.

Lemma reachable_invariant_witness :
  0 <= currThreshold (mkState 1 true 1) <= INT_MAX /\
  (buttonState (mkState 1 true 1) = LOW \/
   buttonState (mkState 1 true 1) = HIGH) /\
  buttonIsActive (mkState 1 true 1) = (buttonState (mkState 1 true 1) =? HIGH).
Proof.
  apply reachable_invariant.
  apply (reachable_cycle power_on (mkInput true 1200) _
           (cycle_events true 1200 20 1) reachable_power_on).
  vm_compute. reflexivity.
Defined.

(* ================================================================= *)
(** ** What every cycle of a history does *)

(** Read from power-on, the cycle on the [k]-th sample does what the
    button of that cycle and the length of the run of near samples ending
    there say: the manual motion when the button is held, the automatic
    dispense when the run is [Threshold] long and the button released, the
    block warning when the run is longer than 3. *)
Theorem history_actuations :
  forall (ins : list input) (ds : list Z),
    map reading ins = map Some ds ->
    within_int ds ->
    exists outs,
      cycles power_on ins = Some outs /\
      forall k i o,
        nth_error ins k = Some i ->
        nth_error outs k = Some o ->
        let run := Z.of_nat (run_length (firstn (S k) ds)) in
        currThreshold (fst o) = run /\
        actuations (snd o) =
          (if button i then [F_rotateStepper] else []) ++
          (if (run =? Threshold) && negb (button i)
           then [F_beep 1000 500; F_rotateStepper; F_retractStepper;
                 F_beep 3000 80; F_beep 3000 80]
           else []) ++
          (if run >? 3 then [F_beep 500 1000] else []).
Proof.
  intros ins ds Hs Hb.
  destruct (counter_tracks_run ins ds Hs Hb) as (outs & Hrun & _ & Hcs).
  exists outs. split; [exact Hrun|].
  intros k i o Hi Ho run.
  assert (Hk : (k < List.length ds)%nat).
  { rewrite <- (sampled_length _ _ Hs). apply nth_error_Some. congruence. }
  assert (Hc : currThreshold (fst o) = run).
  { pose proof (map_nth_error (fun o => currThreshold (fst o)) k outs Ho) as H1.
    fold (counters outs) in H1. rewrite Hcs in H1.
    rewrite nth_error_map, nth_error_seq in H1.
    destruct (k <? List.length ds)%nat eqn:E;
      [|apply Nat.ltb_ge in E; lia].
    cbn [option_map] in H1. injection H1 as H1. symmetry. exact H1. }
  split; [exact Hc|].
  destruct (cycles_nth _ _ _ _ _ _ Hrun Hi Ho) as (s0 & Hstep).
  destruct o as [s1 t]. cbn [fst snd] in *.
  destruct (cycle_inv _ _ _ _ Hstep) as (d & _ & _ & Ht & _).
  unfold actuations. rewrite Ht at 1.
  rewrite steps_cycle_events, actuations_steps, Hc. reflexivity.
Qed.

Lemma history_actuations_witness :
  exists outs,
    cycles power_on
      [mkInput true 1200; mkInput false 1200; mkInput false 2100] =
      Some outs /\
    map (fun o => actuations (snd o)) outs =
      [ [F_rotateStepper];
        [F_beep 1000 500; F_rotateStepper; F_retractStepper;
         F_beep 3000 80; F_beep 3000 80];
        [] ].
Proof.
  destruct (history_actuations
              [mkInput true 1200; mkInput false 1200; mkInput false 2100]
              [20; 20; 35])
    as (outs & Hrun & _).
  - vm_compute. reflexivity.
  - apply within_int_short. vm_compute. discriminate.
  - exists outs. split; [exact Hrun|].
    vm_compute in Hrun. injection Hrun as <-. vm_compute. reflexivity.
Defined.

(* ================================================================= *)
(** ** How long a cycle keeps the processor in delays *)

Lemma cycle_events_obs s i s1 t :
  cycle s i = Some (s1, t) ->
  exists d,
    t = cycle_events (button i) (echo_us i) d (currThreshold s1) /\
    auto_dispenses t =
      (if (currThreshold s1 =? Threshold) && negb (button i)
       then 1%nat else 0%nat) /\
    block_warnings t = (if currThreshold s1 >? 3 then 1%nat else 0%nat).
Proof.
  intros Hstep.
  destruct (cycle_inv _ _ _ _ Hstep) as (d & _ & _ & Ht & _).
  exists d. split; [exact Ht|].
  unfold auto_dispenses, block_warnings. rewrite Ht at 1 2.
  rewrite !steps_cycle_events, auto_dispenses_steps, block_warnings_steps.
  split; reflexivity.
Qed.

(** The delays of a cycle add up to 100.012 ms for the trigger pulse and
    the pacing, 2 s more for a manual dispense motion, 7.33 s more for an
    automatic dispense and 2 s more for a block warning; no cycle delays
    for more than 7.430012 s. *)
Theorem cycle_duration :
  forall (s : state) (i : input) (s1 : state) (t : trace),
    cycle s i = Some (s1, t) ->
    duration_us t =
      100012 + (if button i then 2000000 else 0)
      + 7330000 * Z.of_nat (auto_dispenses t)
      + 2000000 * Z.of_nat (block_warnings t) /\
    100012 <= duration_us t <= 7430012.
Proof.
  intros s i s1 t Hstep.
  destruct (cycle_events_obs _ _ _ _ Hstep) as (d & Ht & Hauto & Hwarn).
  rewrite Hauto, Hwarn. rewrite Ht. clear Ht Hauto Hwarn Hstep.
  generalize (echo_us i) as w. intros w.
  destruct (Z.eqb_spec (currThreshold s1) Threshold) as [Hc|Hc].
  - rewrite Hc. destruct (button i); vm_compute; repeat split; discriminate.
  - unfold cycle_events.
    replace (currThreshold s1 =? Threshold) with false
      by (symmetry; apply Z.eqb_neq; exact Hc).
    cbn [andb].
    destruct (button i), (currThreshold s1 >? 3);
      vm_compute; repeat split; discriminate.
Qed.

Lemma cycle_duration_witness :
  exists s1 t,
    cycle (mkState 0 false 1) (mkInput false 1200) = Some (s1, t) /\
    duration_us t = 7430012.
Proof.
  destruct (cycle (mkState 0 false 1) (mkInput false 1200)) as [[s1 t]|] eqn:E;
    [|vm_compute in E; discriminate].
  exists s1, t. split; [reflexivity|].
  destruct (cycle_duration _ _ _ _ E) as [Hd _].
  rewrite Hd. vm_compute in E. injection E as _ <-. vm_compute. reflexivity.
Defined.

(* ================================================================= *)
(** ** What the motions and the cycles do to the outputs *)

Lemma drive_all_app t1 t2 h :
  drive_all (t1 ++ t2) h = drive_all t2 (drive_all t1 h).
Proof. unfold drive_all. apply fold_left_app. Qed.

Lemma drive_call f body h : drive (Call f body) h = drive_all body h.
Proof. reflexivity. Qed.

Lemma drive_all_cons e t h : drive_all (e :: t) h = drive_all t (drive e h).
Proof. reflexivity. Qed.

(** Step pulses from a low STEP pin: one step each, in the direction DIR
    selects, and STEP is low again. *)
Lemma drive_pulses (a b : Z) (n : nat) :
  forall h,
    step_level h = LOW ->
    drive_all (concat (repeat (step_pulse a b) n)) h =
    {| step_level := LOW;
       dir_level := dir_level h;
       trig_level := trig_level h;
       sounding := sounding h;
       position :=
         position h + Z.of_nat n * (if dir_level h =? LOW then 1 else -1) |}.
Proof.
  induction n as [|n IH]; intros h Hlow.
  - destruct h as [st di tr so po]. cbn in Hlow. subst st. cbn.
    f_equal. lia.
  - cbn [repeat concat]. rewrite drive_all_app.
    destruct h as [st di tr so po]. cbn in Hlow. subst st.
    rewrite IH by reflexivity.
    cbn. f_equal. destruct (di =? LOW); lia.
Qed.

Lemma drive_rotate t h :
  step_level h = LOW ->
  drive (Call F_rotateStepper (rotate_events t)) h =
  {| step_level := LOW; dir_level := LOW;
     trig_level := trig_level h; sounding := sounding h;
     position := position h + Z.max 0 (stepsPerRevolution t * rotateTurns t) |}.
Proof.
  intros Hlow. rewrite drive_call. unfold rotate_events.
  rewrite drive_all_cons, drive_pulses.
  - destruct h as [st di tr so po]. cbn. f_equal. lia.
  - destruct h. exact Hlow.
Qed.

Lemma drive_retract t h :
  step_level h = LOW ->
  drive (Call F_retractStepper (retract_events t)) h =
  {| step_level := LOW; dir_level := HIGH;
     trig_level := trig_level h; sounding := sounding h;
     position := position h - Z.max 0 (stepsPerRevolution t) |}.
Proof.
  intros Hlow. rewrite drive_call. unfold retract_events.
  rewrite drive_all_cons, drive_pulses.
  - destruct h as [st di tr so po]. cbn. f_equal. lia.
  - destruct h. exact Hlow.
Qed.

(** The dispense motion, for every choice of the constants: defined when
    the loop limit fits an [int], it leaves the globals alone, makes as
    many steps forward as the limit says (none for a limit of zero or
    less), each taking the two delays, and ends with STEP low. *)
Theorem rotateStepper_motion :
  forall (t : tuning) (i : input) (s : state) (h : outputs),
    step_level h = LOW ->
    in_int (stepsPerRevolution t * rotateTurns t) = true ->
    exists tr,
      rotateStepper t i s = Some (tt, s, tr) /\
      pulses tr = Z.max 0 (stepsPerRevolution t * rotateTurns t) /\
      duration_us tr =
        Z.max 0 (stepsPerRevolution t * rotateTurns t)
        * (rotatePulse t + rotateInterval t) /\
      position (drive_all tr h) =
        position h + Z.max 0 (stepsPerRevolution t * rotateTurns t) /\
      step_level (drive_all tr h) = LOW /\
      dir_level (drive_all tr h) = LOW.
Proof.
  intros t i s h Hlow Hin.
  exists [Call F_rotateStepper (rotate_events t)].
  rewrite rotateStepper_run, Hin. split; [reflexivity|].
  rewrite pulses_call, pulses_rotate_events.
  rewrite duration_call, duration_rotate_events.
  unfold drive_all. cbn [fold_left]. rewrite (drive_rotate t h Hlow).
  repeat split; reflexivity.
Qed.

Lemma rotateStepper_motion_witness :
  exists tr,
    rotateStepper sketch (mkInput false 0) power_on = Some (tt, power_on, tr) /\
    pulses tr = 200 /\
    duration_us tr = 2000000 /\
    position (drive_all tr idle) = 200.
Proof.
  destruct (rotateStepper_motion sketch (mkInput false 0) power_on idle)
    as (tr & Hrun & Hp & Hd & Hpos & _).
  - reflexivity.
  - reflexivity.
  - exists tr. repeat split; assumption.
Defined.


(** The retract motion, for every choice of the constants: it is always
    defined, leaves the globals alone, makes [stepsPerRevolution] steps
    backward (none when that is zero or less) and ends with STEP low. *)
Theorem retractStepper_motion :
  forall (t : tuning) (i : input) (s : state) (h : outputs),
    step_level h = LOW ->
    exists tr,
      retractStepper t i s = Some (tt, s, tr) /\
      pulses tr = Z.max 0 (stepsPerRevolution t) /\
      duration_us tr =
        Z.max 0 (stepsPerRevolution t) * (retractPulse t + retractInterval t) /\
      position (drive_all tr h) = position h - Z.max 0 (stepsPerRevolution t) /\
      step_level (drive_all tr h) = LOW /\
      dir_level (drive_all tr h) = HIGH.
Proof.
  intros t i s h Hlow.
  exists [Call F_retractStepper (retract_events t)].
  rewrite retractStepper_run. split; [reflexivity|].
  rewrite pulses_call, pulses_retract_events.
  rewrite duration_call, duration_retract_events.
  unfold drive_all. cbn [fold_left]. rewrite (drive_retract t h Hlow).
  repeat split; reflexivity.
Qed.

Lemma retractStepper_motion_witness :
  exists tr,
    retractStepper sketch (mkInput false 0) power_on = Some (tt, power_on, tr) /\
    position (drive_all tr idle) = -100.
Proof.
  destruct (retractStepper_motion sketch (mkInput false 0) power_on idle)
    as (tr & Hrun & _ & _ & Hpos & _).
  - reflexivity.
  - exists tr. split; assumption.
Defined.

Lemma drive_manual b h :
  step_level h = LOW ->
  drive_all (manual_events b) h =
  if b
  then {| step_level := LOW; dir_level := LOW;
          trig_level := trig_level h; sounding := sounding h;
          position := position h + 200 |}
  else h.
Proof.
  intros Hlow. destruct b; [|reflexivity].
  unfold manual_events. rewrite drive_all_cons, (drive_rotate sketch h Hlow).
  reflexivity.
Qed.

Lemma drive_sensing w d h :
  drive_all (sensing_events w d) h =
  {| step_level := step_level h; dir_level := dir_level h;
     trig_level := LOW; sounding := sounding h; position := position h |}.
Proof. destruct h. reflexivity. Qed.

Lemma drive_beep f d h :
  drive (Call (F_beep f d) (beep_events f d)) h = set_sounding None h.
Proof. destruct h. reflexivity. Qed.

Lemma drive_delay ms h : drive (Delay ms) h = h.
Proof. reflexivity. Qed.

Lemma drive_println l h : drive (SerialPrintln l) h = h.
Proof. reflexivity. Qed.

Lemma drive_automatic h :
  step_level h = LOW ->
  drive_all automatic_events h =
  {| step_level := LOW; dir_level := HIGH;
     trig_level := trig_level h; sounding := None;
     position := position h + 100 |}.
Proof.
  intros Hlow. unfold automatic_events.
  rewrite !drive_all_cons, drive_println, drive_beep.
  rewrite (drive_rotate sketch) by (destruct h; exact Hlow).
  rewrite drive_delay.
  rewrite (drive_retract sketch) by reflexivity.
  rewrite drive_delay, !drive_beep.
  destruct h as [st di tr so po]. unfold set_sounding. cbn. f_equal. lia.
Qed.

Lemma drive_warning h :
  drive_all warning_events h = set_sounding None h.
Proof. destruct h. reflexivity. Qed.

(** The events of a cycle on the outputs. *)
Lemma drive_cycle_events b w d c1 h :
  step_level h = LOW ->
  let h1 := drive_all (cycle_events b w d c1) h in
  step_level h1 = LOW /\
  trig_level h1 = LOW /\
  (sounding h = None -> sounding h1 = None) /\
  position h1 =
    position h + (if b then 200 else 0)
    + (if (c1 =? Threshold) && negb b then 100 else 0).
Proof.
  intros Hlow. unfold cycle_events.
  rewrite drive_all_cons.
  change (drive (DigitalRead buttonPin (level_of b)) h) with h.
  rewrite !drive_all_app.
  rewrite (drive_manual b h Hlow).
  rewrite drive_sensing.
  destruct h as [st di tr so po]. cbn in Hlow. subst st.
  destruct b, ((c1 =? Threshold) && negb true), ((c1 =? Threshold) && negb false),
    (c1 >? 3);
    cbn [step_level dir_level trig_level sounding position];
    try rewrite drive_automatic by reflexivity;
    try rewrite drive_warning;
    unfold set_sounding; cbn; repeat split; auto; lia.
Qed.

Lemma drive_cycle s i s1 t h :
  cycle s i = Some (s1, t) ->
  step_level h = LOW ->
  step_level (drive_all t h) = LOW /\
  trig_level (drive_all t h) = LOW /\
  (sounding h = None -> sounding (drive_all t h) = None) /\
  position (drive_all t h) =
    position h + (if button i then 200 else 0)
    + 100 * Z.of_nat (auto_dispenses t).
Proof.
  intros Hstep Hlow.
  destruct (cycle_events_obs _ _ _ _ Hstep) as (d & Ht & Hauto & _).
  rewrite Hauto, Ht.
  destruct (drive_cycle_events (button i) (echo_us i) d (currThreshold s1) h Hlow)
    as (H1 & H2 & H3 & H4).
  repeat split; auto.
  rewrite H4.
  destruct ((currThreshold s1 =? Threshold) && negb (button i)); reflexivity.
Qed.

(** Every cycle that starts with STEP low ends with STEP and TRIG low and,
    if no tone was sounding, with the buzzer silent; the auger ends 200
    steps further forward for a manual dispense motion and 100 steps
    further forward for an automatic dispense (200 forward, 100 back), and
    where it was otherwise: no cycle moves the auger backward. *)
Theorem cycle_outputs :
  forall (s : state) (i : input) (s1 : state) (t : trace) (h : outputs),
    cycle s i = Some (s1, t) ->
    step_level h = LOW ->
    step_level (drive_all t h) = LOW /\
    trig_level (drive_all t h) = LOW /\
    (sounding h = None -> sounding (drive_all t h) = None) /\
    position (drive_all t h) =
      position h + (if button i then 200 else 0)
      + 100 * Z.of_nat (auto_dispenses t) /\
    position h <= position (drive_all t h).
Proof.
  intros s i s1 t h Hstep Hlow.
  destruct (drive_cycle _ _ _ _ h Hstep Hlow) as (H1 & H2 & H3 & H4).
  repeat split; auto.
  rewrite H4. destruct (button i); lia.
Qed.

Lemma cycle_outputs_witness :
  exists s1 t,
    cycle (mkState 0 false 1) (mkInput false 1200) = Some (s1, t) /\
    position (drive_all t idle) = 100 /\
    sounding (drive_all t idle) = None.
Proof.
  destruct (cycle (mkState 0 false 1) (mkInput false 1200)) as [[s1 t]|] eqn:E;
    [|vm_compute in E; discriminate].
  exists s1, t. split; [reflexivity|].
  destruct (cycle_outputs _ _ _ _ idle E) as (_ & _ & Hs & Hp & _);
    [reflexivity|].
  split; [|apply Hs; reflexivity].
  rewrite Hp. vm_compute in E. injection E as _ <-. vm_compute. reflexivity.
Defined.

Lemma held_cycles_cons i ins :
  held_cycles (i :: ins) =
  ((if button i then 1 else 0) + held_cycles ins)%nat.
Proof.
  unfold held_cycles. cbn [filter]. destruct (button i); reflexivity.
Qed.

(** Over any sequence of cycles that starts with STEP low and the buzzer
    silent, the auger advances by 200 steps for every cycle with the
    button held and by 100 steps for every automatic dispense, and the
    sequence ends with STEP low and the buzzer silent. *)
Theorem history_outputs :
  forall (ins : list input) (s : state) (outs : list (state * trace))
         (h : outputs),
    cycles s ins = Some outs ->
    step_level h = LOW ->
    sounding h = None ->
    step_level (drive_all (history_trace outs) h) = LOW /\
    sounding (drive_all (history_trace outs) h) = None /\
    position (drive_all (history_trace outs) h) =
      position h + 200 * Z.of_nat (held_cycles ins)
      + 100 * Z.of_nat (total_auto_dispenses outs).
Proof.
  induction ins as [|i ins IH]; intros s outs h Hrun Hlow Hquiet.
  - injection Hrun as <-. cbn. repeat split; auto. lia.
  - apply cycles_cons_inv in Hrun as (s1 & t1 & outs1 & Hc1 & Hrun & ->).
    unfold history_trace. cbn [map concat snd].
    fold (history_trace outs1). rewrite drive_all_app.
    destruct (drive_cycle _ _ _ _ h Hc1 Hlow) as (H1 & _ & H3 & H4).
    destruct (IH s1 outs1 (drive_all t1 h) Hrun H1 (H3 Hquiet))
      as (G1 & G2 & G3).
    split; [exact G1|]. split; [exact G2|].
    rewrite G3, H4, held_cycles_cons, total_auto_cons. cbn [snd].
    destruct (button i); lia.
Qed.

Lemma history_outputs_witness :
  exists outs,
    cycles power_on
      [mkInput true 2100; mkInput true 2100; mkInput false 1200;
       mkInput false 1200] = Some outs /\
    position (drive_all (history_trace outs) idle) = 500.
Proof.
  destruct (cycles power_on
              [mkInput true 2100; mkInput true 2100; mkInput false 1200;
               mkInput false 1200]) as [outs|] eqn:E;
    [|vm_compute in E; discriminate].
  exists outs. split; [reflexivity|].
  destruct (history_outputs _ _ _ idle E) as (_ & _ & Hp);
    [reflexivity | reflexivity |].
  rewrite Hp. vm_compute in E. injection E as <-. vm_compute. reflexivity.
Defined.

(* ================================================================= *)
(** ** What a cycle reads, and the pins it uses *)

Lemma reads_app t1 t2 : reads (t1 ++ t2) = reads t1 ++ reads t2.
Proof. unfold reads. apply flat_map_app. Qed.

Lemma reads_pulses a b n : reads (concat (repeat (step_pulse a b) n)) = [].
Proof.
  induction n as [|n IH]; cbn [repeat concat]; [reflexivity|].
  rewrite reads_app, IH. reflexivity.
Qed.

Lemma reads_rotate t : reads [Call F_rotateStepper (rotate_events t)] = [].
Proof.
  unfold reads, rotate_events. cbn [flat_map event_reads app].
  fold (reads (concat (repeat (step_pulse (rotatePulse t) (rotateInterval t))
                        (Z.to_nat (stepsPerRevolution t * rotateTurns t))))).
  rewrite reads_pulses. reflexivity.
Qed.

Lemma reads_retract t : reads [Call F_retractStepper (retract_events t)] = [].
Proof.
  unfold reads, retract_events. cbn [flat_map event_reads app].
  fold (reads (concat (repeat (step_pulse (retractPulse t) (retractInterval t))
                        (Z.to_nat (stepsPerRevolution t))))).
  rewrite reads_pulses. reflexivity.
Qed.

Lemma reads_cons e t : reads (e :: t) = event_reads e ++ reads t.
Proof. reflexivity. Qed.

Lemma reads_automatic : reads automatic_events = [].
Proof.
  unfold automatic_events. repeat rewrite reads_cons.
  pose proof (reads_rotate sketch) as Hr. pose proof (reads_retract sketch) as Ht.
  rewrite reads_cons, app_nil_r in Hr, Ht. rewrite Hr, Ht. reflexivity.
Qed.

(** Every cycle samples the button once and the echo once, in this order,
    and reads nothing else: neither the motions nor the beeps look at an
    input, so nothing that happens during them is noticed. *)
Theorem cycle_reads :
  forall (s : state) (i : input) (s1 : state) (t : trace),
    cycle s i = Some (s1, t) ->
    reads t =
      [ DigitalRead buttonPin (if button i then HIGH else LOW);
        PulseIn echoPin HIGH (echo_us i) ].
Proof.
  intros s i s1 t Hstep.
  destruct (cycle_inv _ _ _ _ Hstep) as (d & _ & _ & Ht & _).
  rewrite Ht. unfold cycle_events.
  rewrite reads_cons, !reads_app.
  assert (Hm : reads (manual_events (button i)) = []).
  { unfold manual_events. destruct (button i);
      [apply reads_rotate | reflexivity]. }
  rewrite Hm.
  assert (Ha : forall c : bool, reads (if c then automatic_events else []) = []).
  { intros [|]; [apply reads_automatic | reflexivity]. }
  rewrite Ha.
  destruct (currThreshold s1 >? 3); reflexivity.
Qed.

Lemma cycle_reads_witness :
  exists s1 t,
    cycle (mkState 0 false 1) (mkInput true 1200) = Some (s1, t) /\
    reads t = [DigitalRead buttonPin HIGH; PulseIn echoPin HIGH 1200].
Proof.
  destruct (cycle (mkState 0 false 1) (mkInput true 1200)) as [[s1 t]|] eqn:E;
    [|vm_compute in E; discriminate].
  exists s1, t. split; [reflexivity|].
  apply (cycle_reads _ _ _ _ E).
Defined.

Lemma respects_pulses cfg a b n :
  is_output (cfg stepPin) = true ->
  forallb (respects cfg) (concat (repeat (step_pulse a b) n)) = true.
Proof.
  intros Hout. induction n as [|n IH]; cbn [repeat concat]; [reflexivity|].
  rewrite forallb_app, IH. cbn. rewrite Hout. reflexivity.
Qed.

Lemma respects_rotate t :
  respects setup_modes (Call F_rotateStepper (rotate_events t)) = true.
Proof.
  cbn [respects]. unfold rotate_events. cbn [forallb respects].
  rewrite respects_pulses by reflexivity. reflexivity.
Qed.

Lemma respects_retract t :
  respects setup_modes (Call F_retractStepper (retract_events t)) = true.
Proof.
  cbn [respects]. unfold retract_events. cbn [forallb respects].
  rewrite respects_pulses by reflexivity. reflexivity.
Qed.

(** [setup] leaves the globals alone and gives a mode to each of the six
    pins, and every cycle uses the pins accordingly: it writes and sounds
    only pins that [setup] made outputs, and reads only pins that [setup]
    made inputs. *)
Theorem cycle_respects_setup :
  (forall (i : input) (s : state),
      exists t, setup i s = Some (tt, s, t) /\
                forall pin, configured t pin = setup_modes pin) /\
  map setup_modes [stepPin; dirPin; trigPin; buzzerPin; echoPin; buttonPin] =
    [Some OUTPUT; Some OUTPUT; Some OUTPUT; Some OUTPUT;
     Some INPUT; Some INPUT] /\
  (forall (s : state) (i : input) (s1 : state) (t : trace),
      cycle s i = Some (s1, t) ->
      forallb (respects setup_modes) t = true).
Proof.
  split; [|split].
  - intros i s. eexists. split; reflexivity.
  - reflexivity.
  - intros s i s1 t Hstep.
    destruct (cycle_inv _ _ _ _ Hstep) as (d & _ & _ & Ht & _).
    rewrite Ht. unfold cycle_events. cbn [forallb].
    rewrite !forallb_app.
    assert (Hm : forallb (respects setup_modes) (manual_events (button i)) = true).
    { unfold manual_events. destruct (button i); [|reflexivity].
      cbn [forallb]. rewrite respects_rotate. reflexivity. }
    assert (Ha : forallb (respects setup_modes) automatic_events = true).
    { unfold automatic_events. cbn [forallb].
      rewrite respects_rotate, respects_retract. reflexivity. }
    rewrite Hm.
    destruct ((currThreshold s1 =? Threshold) && negb (button i));
      [rewrite Ha|]; destruct (currThreshold s1 >? 3); reflexivity.
Qed.

Lemma cycle_respects_setup_witness :
  exists s1 t,
    cycle (mkState 0 false 1) (mkInput false 1200) = Some (s1, t) /\
    forallb (respects setup_modes) t = true.
Proof.
  destruct (cycle (mkState 0 false 1) (mkInput false 1200)) as [[s1 t]|] eqn:E;
    [|vm_compute in E; discriminate].
  exists s1, t. split; [reflexivity|].
  apply (proj2 (proj2 cycle_respects_setup) _ _ _ _ E).
Defined.

(* ================================================================= *)
(** ** The sensor read on the echoes of the sensor's range *)

Lemma all_from_spec (p : Z -> bool) (n : nat) :
  forall lo z,
    all_from p lo n = true -> lo <= z < lo + Z.of_nat n -> p z = true.
Proof.
  induction n as [|n IH]; intros lo z Hall Hz; [lia|].
  cbn [all_from] in Hall. apply andb_prop in Hall as [Hlo Hrest].
  destruct (Z.eq_dec z lo) as [->|Hne]; [exact Hlo|].
  apply (IH (lo + 1)); [exact Hrest | lia].
Qed.

Lemma echo_converts_to_30000 :
  all_from echo_converts 0 (Z.to_nat 30001) = true.
Proof. vm_compute. reflexivity. Qed.

(** On every echo of at most 30000 microseconds, the timeout the sketch
    suggests for [pulseIn], [getDistance] has a result: it leaves the
    globals alone and returns a distance between 0 and 510 that is below
    the near limit of 30 exactly when the echo is shorter than 1765
    microseconds. *)
Theorem getDistance_in_range :
  forall (i : input) (s : state),
    0 <= echo_us i <= 30000 ->
    exists d t,
      getDistance i s = Some (d, s, t) /\
      0 <= d <= 510 /\
      (d < 30 <-> echo_us i < 1765).
Proof.
  intros i s Hw.
  assert (Hc : echo_converts (echo_us i) = true).
  { apply (all_from_spec echo_converts (Z.to_nat 30001) 0);
      [exact echo_converts_to_30000 | rewrite Z2Nat.id; lia]. }
  unfold echo_converts in Hc. rewrite getDistance_run.
  destruct (to_cm (echo_us i)) as [d|]; [|discriminate].
  apply andb_prop in Hc as [Hc Hnear]. apply andb_prop in Hc as [H0 H510].
  apply Z.leb_le in H0. apply Z.leb_le in H510.
  apply Bool.eqb_prop in Hnear. unfold near, NEAR_LIMIT in Hnear.
  exists d. eexists. split; [reflexivity|]. split; [lia|].
  rewrite <- !Z.ltb_lt, Hnear. reflexivity.
Qed.

Lemma getDistance_in_range_witness :
  exists d t,
    getDistance (mkInput false 1764) power_on = Some (d, power_on, t) /\
    0 <= d <= 510 /\ (d < 30 <-> 1764 < 1765).
Proof.
  apply (getDistance_in_range (mkInput false 1764) power_on).
  cbn. lia.
Defined.

(* ================================================================= *)
(** ** The serial log of a cycle *)

(** The log of a cycle tells what the cycle did: it says RAN exactly when
    the cycle dispenses automatically, that the object blocks the sensor
    exactly when the block warning sounds, and "upping one" on a near
    sample, "Cancelling" on any other. *)
Theorem cycle_log :
  forall (s : state) (i : input) (s1 : state) (t : trace),
    cycle s i = Some (s1, t) ->
    (In (SerialPrintln "RAN"%string) t <-> auto_dispenses t = 1%nat) /\
    (In (SerialPrintln "delaying, object blocking sensor"%string) t <->
     block_warnings t = 1%nat) /\
    (In (SerialPrintln "upping one"%string) t <-> is_near i = true) /\
    (In (SerialPrintln "Cancelling"%string) t <-> is_near i = false).
Proof.
  intros s i s1 t Hstep.
  destruct (cycle_events_obs _ _ _ _ Hstep) as (d & Ht & Hauto & Hwarn).
  destruct (cycle_inv _ _ _ _ Hstep) as (d' & Hd & _ & Ht' & _).
  rewrite Ht in Ht'.
  assert (Hdd : d' = d).
  { unfold cycle_events, sensing_events in Ht'.
    destruct (button i); cbn [manual_events app] in Ht';
      injection Ht' as Ht'; congruence. }
  subst d'.
  unfold is_near. rewrite Hd, Hauto, Hwarn, Ht.
  unfold near, NEAR_LIMIT, cycle_events, manual_events, sensing_events,
    automatic_events, warning_events.
  destruct (button i), ((currThreshold s1 =? Threshold)),
    (currThreshold s1 >? 3), (d <? 30);
    cbn [andb negb app In];
    repeat split; intros H;
    repeat (destruct H as [H|H]; try discriminate H);
    try discriminate; try contradiction; try reflexivity;
    auto 20.
Qed.

Lemma cycle_log_witness :
  exists s1 t,
    cycle (mkState 0 false 1) (mkInput false 1200) = Some (s1, t) /\
    In (SerialPrintln "RAN"%string) t.
Proof.
  destruct (cycle (mkState 0 false 1) (mkInput false 1200)) as [[s1 t]|] eqn:E;
    [|vm_compute in E; discriminate].
  exists s1, t. split; [reflexivity|].
  apply (proj1 (cycle_log _ _ _ _ E)).
  vm_compute in E. injection E as _ <-. vm_compute. reflexivity.
Defined.
